(** * Kyco, the Kytos controller: a shallow embedding of [kyco/controller.py]

    The development follows the class [Controller]: the registries it owns
    (connections, switches, NApps, the listener table), the dispatcher loops
    over the [raw] and [app] buffers, [notify_listeners], the built-in
    [new_connection] handler, [send_to], and NApp loading and unloading.

    Python statements that mutate [self] become actions of a state and
    exception monad over a record [Controller]; an exception carries the
    state reached when it was raised, because every mutation performed
    before the [raise] persists in Python. *)

From Stdlib Require Import Ascii.
From stdpp Require Import base gmap strings list.

Open Scope string_scope.

(** ** Exceptions *)

(** The exception classes that the controller code can see. *)
Inductive exn : Type :=
  | KeyError
  | ValueError
  | AttributeError
  | OSError                      (* also [socket.error], an alias of it *)
  | FileNotFoundError
  | KycoSwitchOfflineException
  | re_error                     (* [re.error], raised on a bad pattern *)
  | UserError (msg : string).    (* anything raised by NApp code *)

Definition exn_eqb (a b : exn) : bool :=
  match a, b with
  | KeyError, KeyError | ValueError, ValueError
  | AttributeError, AttributeError | OSError, OSError
  | FileNotFoundError, FileNotFoundError
  | KycoSwitchOfflineException, KycoSwitchOfflineException
  | re_error, re_error => true
  | UserError m, UserError m' => String.eqb m m'
  | _, _ => false
  end.

(** ** The state and exception monad *)

Inductive Res (S A : Type) : Type :=
  | Ok (a : A) (s : S)
  | Raise (e : exn) (s : S).
Arguments Ok {S A} a s.
Arguments Raise {S A} e s.

Definition M (S A : Type) : Type := S -> Res S A.

Definition ret {S A} (a : A) : M S A := fun s => Ok a s.

Definition bind {S A B} (m : M S A) (k : A -> M S B) : M S B :=
  fun s => match m s with
           | Ok a s' => k a s'
           | Raise e s' => Raise e s'
           end.

Definition raise {S A} (e : exn) : M S A := fun s => Raise e s.

Definition gets {S A} (f : S -> A) : M S A := fun s => Ok (f s) s.

Definition modify {S} (f : S -> S) : M S unit := fun s => Ok tt (f s).

(** [try: body except classes: handler]: the handler runs, in the state
    reached at the [raise], for the exceptions that [catches] selects. *)
Definition try_except {S A} (body : M S A) (catches : exn -> bool)
    (handler : exn -> M S A) : M S A :=
  fun s => match body s with
           | Ok a s' => Ok a s'
           | Raise e s' => if catches e then handler e s' else Raise e s'
           end.

Definition state_of {S A} (r : Res S A) : S :=
  match r with Ok _ s => s | Raise _ s => s end.

Declare Scope kyco_scope.
Delimit Scope kyco_scope with kyco.
Notation "'let*' x ':=' m 'in' k" := (bind m (fun x => k))
  (at level 10, x pattern, m at level 100, k at level 200) : kyco_scope.
Notation "m '>>' k" := (bind m (fun _ => k))
  (at level 100, k at level 200, right associativity) : kyco_scope.
Open Scope kyco_scope.

(** ** Regular expressions: [re.match]

    [re] is Python's library, not code of the controller.  The fragment
    modelled here is the one the event names of the controller use:
    ordinary characters, [\c] for an escaped punctuation character, [.]
    (any character but a newline), and the greedy postfix quantifiers [*],
    [+] and [?] on a single character.  A pattern that has a quantifier
    with nothing to repeat is rejected, as [re] does with [re.error];
    groups, classes, counted and lazy repetition, alternation and anchors
    are outside the fragment and are rejected too. *)
Module Re.

Inductive token : Type :=
  | TLit (c : ascii)
  | TDot
  | TStar
  | TPlus
  | TOpt
  | TBad.

Definition special : list ascii :=
  ["\"; "."; "*"; "+"; "?"; "("; ")"; "["; "{"; "|"; "^"; "$"]%char.

Definition is_special (c : ascii) : bool :=
  existsb (Ascii.eqb c) special.

Definition is_alnum (c : ascii) : bool :=
  let n := nat_of_ascii c in
  (((48 <=? n) && (n <=? 57)) || ((65 <=? n) && (n <=? 90))
   || ((97 <=? n) && (n <=? 122)))%nat.

Fixpoint tokens (p : string) : list token :=
  match p with
  | EmptyString => []
  | String "\" EmptyString => [TBad]
  | String "\" (String c p') =>
      (if is_alnum c then TBad else TLit c) :: tokens p'
  | String "." p' => TDot :: tokens p'
  | String "*" p' => TStar :: tokens p'
  | String "+" p' => TPlus :: tokens p'
  | String "?" p' => TOpt :: tokens p'
  | String c p' => (if is_special c then TBad else TLit c) :: tokens p'
  end.

Inductive atom : Type := Lit (c : ascii) | Dot.
Inductive quant : Type := One | Star | Plus | Opt.

Definition item : Type := atom * quant.

(** One atom and the quantifier that follows it, if any. *)
Fixpoint items (ts : list token) : option (list item) :=
  match ts with
  | [] => Some []
  | TLit c :: ts' =>
      match ts' with
      | TStar :: r => cons (Lit c, Star) <$> items r
      | TPlus :: r => cons (Lit c, Plus) <$> items r
      | TOpt :: r => cons (Lit c, Opt) <$> items r
      | _ => cons (Lit c, One) <$> items ts'
      end
  | TDot :: ts' =>
      match ts' with
      | TStar :: r => cons (Dot, Star) <$> items r
      | TPlus :: r => cons (Dot, Plus) <$> items r
      | TOpt :: r => cons (Dot, Opt) <$> items r
      | _ => cons (Dot, One) <$> items ts'
      end
  | _ => None
  end.

Definition compile (p : string) : option (list item) := items (tokens p).

Definition newline : ascii := ascii_of_nat 10.

Definition atom_ok (a : atom) (c : ascii) : bool :=
  match a with
  | Lit c' => Ascii.eqb c' c
  | Dot => negb (Ascii.eqb c newline)
  end.

(** [star a k s]: consume as many [a] as possible, then continue with [k],
    giving characters back on failure. *)
Fixpoint star (a : atom) (k : string -> bool) (s : string) : bool :=
  match s with
  | String c s' => (atom_ok a c && star a k s') || k s
  | EmptyString => k s
  end.

Definition one (a : atom) (k : string -> bool) (s : string) : bool :=
  match s with
  | String c s' => atom_ok a c && k s'
  | EmptyString => false
  end.

(** Does the item sequence match at the beginning of [s]? *)
Fixpoint match_items (its : list item) : string -> bool :=
  match its with
  | [] => fun _ => true
  | (a, q) :: rest =>
      let k := match_items rest in
      match q with
      | One => one a k
      | Star => star a k
      | Plus => one a (star a k)
      | Opt => fun s => one a k s || k s
      end
  end.

(** [re.match(pattern, string)], as a truth value: [None] when the pattern
    does not compile. *)
Definition match_ (pattern s : string) : option bool :=
  (fun its => match_items its s) <$> compile pattern.


End Re.

(** ** Python dictionaries that are iterated

    [events_listeners] and a NApp's [_listeners] are iterated with
    [.items()], so the insertion order of their keys is observable; they are
    association lists in insertion order.  The other registries are only
    looked up by key and are finite maps. *)
Module Dict.
Section Ops.
Context {V : Type}.

Fixpoint get (k : string) (d : list (string * V)) : option V :=
  match d with
  | [] => None
  | (k', v) :: d' => if String.eqb k' k then Some v else get k d'
  end.

Definition mem (k : string) (d : list (string * V)) : bool :=
  match get k d with Some _ => true | None => false end.

(** [d[k] = v]: in place for a key of [d], at the end for a new key. *)
Fixpoint set (k : string) (v : V) (d : list (string * V))
    : list (string * V) :=
  match d with
  | [] => [(k, v)]
  | (k', v') :: d' =>
      if String.eqb k' k then (k', v) :: d' else (k', v') :: set k v d'
  end.

(** [d.pop(k)] on a key of [d]: the entry under [k] goes; a dictionary has
    at most one. *)
Fixpoint remove (k : string) (d : list (string * V)) : list (string * V) :=
  match d with
  | [] => []
  | (k', v') :: d' =>
      if String.eqb k' k then remove k d' else (k', v') :: remove k d'
  end.

Definition keys (d : list (string * V)) : list string := map fst d.
End Ops.
End Dict.

(** ** Data model *)

Definition bytes : Type := list Byte.byte.

(** [(ip, port)] *)
Definition ConnId : Type := string * N.

(** A [Connection] object is shared between the event that announces it,
    the connections registry and the switch that uses it: the registries
    hold references into one store of Connection objects. *)
Definition ConnRef : Type := nat.

Inductive ConnState : Type :=
  | NEW | HANDSHAKING | ESTABLISHED | CLOSING | CLOSED.

(** Modelled from the spec: the class [Connection], which is not part of
    [controller.py].  The spec gives it the identity [(ip, port)], the
    optional dpid of the switch behind it, a lifecycle state and the send
    half of its socket. *)
Record Connection : Type := {
  conn_id : ConnId;
  conn_dpid : option string;
  conn_state : ConnState;
  conn_sent : list bytes            (* what has been written to the socket *)
}.

(** Modelled from the spec: the class [Switch], which is not part of
    [controller.py].  The spec gives it a dpid and a reference to its
    current Connection. *)
Record Switch : Type := {
  sw_dpid : string;
  sw_connection : option ConnRef    (* the current Connection, not owned *)
}.

(** The Python values that travel in an event's [content] and that the
    registry operations return. *)
Inductive PyVal : Type :=
  | VNone
  | VBool (b : bool)
  | VStr (s : string)
  | VBytes (b : bytes)
  | VConnection (r : ConnRef).

(** Modelled from the spec: the class [KycoEvent], which is not part of
    [controller.py].  The spec gives it a name, a timestamp and a keyed
    content. *)
Record KycoEvent : Type := {
  name : string;
  timestamp : nat;
  content : gmap string PyVal
}.

(** [send_to] tells a connection id from a dpid with [isinstance(_, tuple)]. *)
Inductive Destination : Type :=
  | DestTuple (id : ConnId)
  | DestDpid (dpid : string).

Definition with_state (st : ConnState) (o : Connection) : Connection :=
  {| conn_id := conn_id o; conn_dpid := conn_dpid o;
     conn_state := st; conn_sent := conn_sent o |}.

Definition with_sent (message : bytes) (o : Connection) : Connection :=
  {| conn_id := conn_id o; conn_dpid := conn_dpid o;
     conn_state := conn_state o; conn_sent := conn_sent o ++ [message] |}.

Definition socket_closed (st : ConnState) : bool :=
  match st with CLOSING | CLOSED => true | _ => false end.

Definition established (st : ConnState) : bool :=
  match st with ESTABLISHED => true | _ => false end.

(** Modelled from the spec: a buffer of [KycoBuffers], which is not part of
    [controller.py], is a FIFO of events with a blocking [get]; what a
    loop finds in its buffer is a list of events.  A dispatcher loop over
    it ends by [break], by an exception that leaves the loop, or blocked in
    [get] on the empty buffer. *)
Inductive LoopStatus : Type :=
  | Stopped
  | Died (e : exn)
  | Waiting.

Fixpoint for_each {S A} (l : list A) (f : A -> M S unit) : M S unit :=
  match l with
  | [] => ret tt
  | x :: l' => f x >> for_each l' f
  end.

Section Model.

(** The state that belongs to the NApps: listeners, [start] and [shutdown]
    are NApp code and act on it. *)
Context {U : Type}.

(** A listener is a bound method: of the controller itself
    ([self.new_connection]) or of a NApp instance.  Python compares bound
    methods by the object they are bound to and the function. *)
Inductive Listener : Type :=
  | new_connection_method
  | napp_method (self : nat) (func : string) (body : KycoEvent -> M U unit).

Definition listener_eqb (a b : Listener) : bool :=
  match a, b with
  | new_connection_method, new_connection_method => true
  | napp_method i f _, napp_method j g _ => Nat.eqb i j && String.eqb f g
  | _, _ => false
  end.

Record NApp : Type := {
  napp_self : nat;                                (* the instance *)
  _listeners : list (string * list Listener);
  napp_start : M U unit;
  napp_shutdown : M U unit;
  napp_core : bool                               (* a [KycoCoreNApp] *)
}.

(** [options.napps] is the NApps root; what matters of it is which
    [main.py] the loader finds for a NApp name, and the [Main] class in
    it, whose constructor is NApp code. *)
Record Options : Type := {
  listen : string;
  port : N;
  napps_dir : string -> option (M U NApp)
}.

Record Controller : Type := {
  connections : gmap ConnId ConnRef;
  events_listeners : list (string * list Listener);
  napps : gmap string NApp;
  options : Options;
  switches : gmap string Switch;
  (* what the controller's objects refer to *)
  objects : gmap ConnRef Connection;
  world : U;
  (* every listener invocation, in order *)
  calls : list (Listener * KycoEvent)
}.

Definition set_connections (f : gmap ConnId ConnRef -> gmap ConnId ConnRef)
    (c : Controller) : Controller :=
  {| connections := f (connections c);
     events_listeners := events_listeners c; napps := napps c;
     options := options c; switches := switches c; objects := objects c;
     world := world c; calls := calls c |}.

Definition set_events_listeners
    (f : list (string * list Listener) -> list (string * list Listener))
    (c : Controller) : Controller :=
  {| connections := connections c;
     events_listeners := f (events_listeners c); napps := napps c;
     options := options c; switches := switches c; objects := objects c;
     world := world c; calls := calls c |}.

Definition set_napps (f : gmap string NApp -> gmap string NApp)
    (c : Controller) : Controller :=
  {| connections := connections c;
     events_listeners := events_listeners c; napps := f (napps c);
     options := options c; switches := switches c; objects := objects c;
     world := world c; calls := calls c |}.

Definition set_switches (f : gmap string Switch -> gmap string Switch)
    (c : Controller) : Controller :=
  {| connections := connections c;
     events_listeners := events_listeners c; napps := napps c;
     options := options c; switches := f (switches c);
     objects := objects c; world := world c; calls := calls c |}.

Definition set_objects
    (f : gmap ConnRef Connection -> gmap ConnRef Connection)
    (c : Controller) : Controller :=
  {| connections := connections c;
     events_listeners := events_listeners c; napps := napps c;
     options := options c; switches := switches c;
     objects := f (objects c); world := world c; calls := calls c |}.

Definition set_world (w : U) (c : Controller) : Controller :=
  {| connections := connections c;
     events_listeners := events_listeners c; napps := napps c;
     options := options c; switches := switches c; objects := objects c;
     world := w; calls := calls c |}.

Definition log_call (l : Listener) (event : KycoEvent) (c : Controller)
    : Controller :=
  {| connections := connections c;
     events_listeners := events_listeners c; napps := napps c;
     options := options c; switches := switches c; objects := objects c;
     world := world c; calls := calls c ++ [(l, event)] |}.

(** NApp code runs on the NApps' state. *)
Definition napp_code {A} (m : M U A) : M Controller A :=
  fun c => match m (world c) with
           | Ok a w => Ok a (set_world w c)
           | Raise e w => Raise e (set_world w c)
           end.

(** [Controller.__init__] *)
Definition init (opts : Options) (w : U) : Controller :=
  {| connections := ∅;
     events_listeners := [("kyco/core.connection.new", [new_connection_method])];
     napps := ∅;
     options := opts;
     switches := ∅;
     objects := ∅;
     world := w;
     calls := [] |}.

(** *** Registry operations *)

(** [d[k]] on a registry. *)
Definition getitem {K V} `{Countable K} (d : Controller -> gmap K V) (k : K)
    : M Controller V :=
  fun c => match d c !! k with
           | Some v => Ok v c
           | None => Raise KeyError c
           end.

Definition get_switch_by_dpid (dpid : string) : M Controller (option Switch) :=
  try_except
    (let* switch := getitem switches dpid in ret (Some switch))
    (exn_eqb KeyError) (fun _ => ret None).

Definition get_connection_by_id (id : ConnId)
    : M Controller (option ConnRef) :=
  try_except
    (let* connection := getitem connections id in ret (Some connection))
    (exn_eqb KeyError) (fun _ => ret None).

(** [self.connections.pop(id)] *)
Definition connections_pop (id : ConnId) : M Controller ConnRef :=
  let* connection := getitem connections id in
  modify (set_connections (delete id)) >> ret connection.

(** [self.switches.pop(dpid)] *)
Definition switches_pop (dpid : string) : M Controller Switch :=
  let* switch := getitem switches dpid in
  modify (set_switches (delete dpid)) >> ret switch.

Definition remove_connection (id : ConnId) : M Controller PyVal :=
  try_except
    (let* connection := connections_pop id in ret (VBool true))
    (exn_eqb KeyError) (fun _ => ret (VBool false)).

(** The body ends after the [try] statement: when [pop] succeeds the
    function falls off its end and returns [None]. *)
Definition remove_switch (dpid : string) : M Controller PyVal :=
  try_except
    (let* switch := switches_pop dpid in ret VNone)
    (exn_eqb KeyError) (fun _ => ret (VBool false)).

(** *** Connection and Switch objects

    The classes [Connection] and [Switch] live in [kyco/core/switch.py];
    the controller uses their attributes [id] and [dpid] and the methods
    below. *)

(** Attribute access on the object behind a reference. *)
Definition attr {A} (r : ConnRef) (f : Connection -> A) : M Controller A :=
  fun c => match objects c !! r with
           | Some o => Ok (f o) c
           | None => Raise AttributeError c
           end.

(** Modelled from the spec: [Switch.disconnect], which is not part of
    [controller.py].  The spec says that it disconnects the Switch's
    current Connection; a disconnected Connection is [CLOSED]. *)
Definition Switch_disconnect (switch : Switch) : M Controller unit :=
  match sw_connection switch with
  | Some r => modify (set_objects (alter (with_state CLOSED) r))
  | None => ret tt
  end.

(** Modelled from the spec: writing to a Connection's socket, which is
    not part of [controller.py].  The spec says that the bytes are
    written via the Connection and that socket failures are I/O errors;
    the socket of a [CLOSING] or [CLOSED] Connection is closed. *)
Definition Connection_send (r : ConnRef) (message : bytes)
    : M Controller unit :=
  let* st := attr r conn_state in
  if socket_closed st then raise OSError
  else modify (set_objects (alter (with_sent message) r)).

(** Modelled from the spec: [Switch.send], which is not part of
    [controller.py].  The spec says that the bytes are written via the
    Switch's current Connection, and that the switch is offline when that
    Connection is not [ESTABLISHED]. *)
Definition Switch_send (switch : Switch) (message : bytes)
    : M Controller unit :=
  match sw_connection switch with
  | None => raise KycoSwitchOfflineException
  | Some r =>
      let* st := attr r conn_state in
      if established st then Connection_send r message
      else raise KycoSwitchOfflineException
  end.

(** *** The built-in listener *)

(** [event.content['connection']] *)
Definition content_getitem (event : KycoEvent) (k : string)
    : M Controller PyVal :=
  match content event !! k with
  | Some v => ret v
  | None => raise KeyError
  end.

(** [connection.id] and [connection.dpid] exist on Connection objects. *)
Definition connection_attr {A} (v : PyVal) (f : Connection -> A)
    : M Controller A :=
  match v with
  | VConnection r => attr r f
  | _ => raise AttributeError
  end.

(** A Connection and a Switch are objects without [__bool__] or [__len__]:
    they are true in an [if]. *)
Definition new_connection (event : KycoEvent) : M Controller unit :=
  let* connection := content_getitem event "connection" in
  (* Remove old connection (aka cleanup) if exists *)
  let* id := connection_attr connection conn_id in
  let* old := get_connection_by_id id in
  (match old with
   | Some _ =>
       let* id := connection_attr connection conn_id in
       remove_connection id >> ret tt
   | None => ret tt
   end) >>
  (* Disconnect old switch if exists; a dpid of None is no key *)
  let* dpid := connection_attr connection conn_dpid in
  let* switch := match dpid with
                 | Some d => get_switch_by_dpid d
                 | None => ret None
                 end in
  (match switch with
   | Some sw => Switch_disconnect sw
   | None => ret tt
   end) >>
  (* Update connections with the new connection *)
  let* id := connection_attr connection conn_id in
  match connection with
  | VConnection r => modify (set_connections (<[id := r]>))
  | _ => raise AttributeError
  end.

(** *** Dispatch *)

(** [listener(event)] *)
Definition call (listener : Listener) (event : KycoEvent)
    : M Controller unit :=
  modify (log_call listener event) >>
  match listener with
  | new_connection_method => new_connection event
  | napp_method _ _ body => napp_code (body event)
  end.

(** [re.match(event_regex, event.name)] as the condition of an [if] *)
Definition re_match (event_regex s : string) : M Controller bool :=
  match Re.match_ event_regex s with
  | Some b => ret b
  | None => raise re_error
  end.

(** The listeners of the model do not register or remove listeners, so
    the items that the loop goes through are those of the table at its
    start. *)
Definition notify_listeners (event : KycoEvent) : M Controller unit :=
  let* items := gets events_listeners in
  for_each items (fun '(event_regex, listeners) =>
    let* m := re_match event_regex (name event) in
    if m then for_each listeners (fun listener => call listener event)
    else ret tt).

(** A run of a dispatcher loop over what its buffer holds: how it ended,
    what is left in the buffer, and the controller it leaves. *)
Record Run : Type := {
  status : LoopStatus;
  left : list KycoEvent;
  final : Controller
}.

Fixpoint raw_event_handler (raw : list KycoEvent) (c : Controller) : Run :=
  match raw with
  | [] => {| status := Waiting; left := []; final := c |}
  | event :: raw' =>
      if String.eqb (name event) "kyco/core.shutdown"
      then {| status := Stopped; left := raw'; final := c |}
      else match notify_listeners event c with
           | Ok _ c' => raw_event_handler raw' c'
           | Raise e c' => {| status := Died e; left := raw'; final := c' |}
           end
  end.

Fixpoint app_event_handler (app : list KycoEvent) (c : Controller) : Run :=
  match app with
  | [] => {| status := Waiting; left := []; final := c |}
  | event :: app' =>
      (* Sending the event to the listeners *)
      match notify_listeners event c with
      | Ok _ c' =>
          if String.eqb (name event) "kyco/core.shutdown"
          then {| status := Stopped; left := app'; final := c' |}
          else app_event_handler app' c'
      | Raise e c' => {| status := Died e; left := app'; final := c' |}
      end
  end.

(** *** Sending *)

Definition send_to (destination : Destination) (message : bytes)
    : M Controller unit :=
  match destination with
  | DestTuple id =>
      try_except
        (let* connection := getitem connections id in
         Connection_send connection message)
        (exn_eqb OSError)
        (fun exception => raise exception)
  | DestDpid dpid =>
      try_except
        (let* switch := getitem switches dpid in
         Switch_send switch message)
        (fun e => exn_eqb OSError e || exn_eqb KycoSwitchOfflineException e)
        (fun excp => raise excp)
  end.

(** *** NApps *)

(** [SourceFileLoader(napp_name, path).load_module().Main(controller=self)] *)
Definition instantiate (napp_name : string) : M Controller NApp :=
  let* opts := gets options in
  match napps_dir opts napp_name with
  | Some Main => napp_code Main
  | None => raise FileNotFoundError
  end.

(** [self.events_listeners[event_type]] *)
Definition events_listeners_getitem (event_type : string)
    : M Controller (list Listener) :=
  fun c => match Dict.get event_type (events_listeners c) with
           | Some ls => Ok ls c
           | None => Raise KeyError c
           end.

(** [self.events_listeners[event_type].extend(listeners)] *)
Definition extend (event_type : string) (listeners : list Listener)
    : M Controller unit :=
  let* ls := events_listeners_getitem event_type in
  modify (set_events_listeners (Dict.set event_type (ls ++ listeners)%list)).

Definition load_napp (napp_name : string) : M Controller unit :=
  let* napp := instantiate napp_name in
  modify (set_napps (<[napp_name := napp]>)) >>
  for_each (_listeners napp) (fun '(event_type, listeners) =>
    let* present := gets (fun c => Dict.mem event_type (events_listeners c)) in
    (if negb present
     then modify (set_events_listeners (Dict.set event_type []))
     else ret tt) >>
    extend event_type listeners) >>
  napp_code (napp_start napp).

(** [list.remove(x)]: the first element equal to [x] goes. *)
Fixpoint list_remove (x : Listener) (l : list Listener)
    : option (list Listener) :=
  match l with
  | [] => None
  | y :: l' => if listener_eqb y x then Some l'
               else cons y <$> list_remove x l'
  end.

(** [self.events_listeners[event_type].remove(listener)] *)
Definition listeners_remove (event_type : string) (listener : Listener)
    : M Controller unit :=
  let* ls := events_listeners_getitem event_type in
  match list_remove listener ls with
  | Some ls' => modify (set_events_listeners (Dict.set event_type ls'))
  | None => raise ValueError
  end.

(** [self.napps.pop(napp_name)] *)
Definition napps_pop (napp_name : string) : M Controller NApp :=
  let* napp := getitem napps napp_name in
  modify (set_napps (delete napp_name)) >> ret napp.

Definition unload_napp (napp_name : string) : M Controller unit :=
  let* napp := napps_pop napp_name in
  napp_code (napp_shutdown napp) >>
  (* Removing listeners from that napp *)
  for_each (_listeners napp) (fun '(event_type, listeners) =>
    for_each listeners (fun listener => listeners_remove event_type listener) >>
    let* ls := events_listeners_getitem event_type in
    if Nat.eqb (length ls) 0
    then modify (set_events_listeners (Dict.remove event_type))
    else ret tt).

End Model.

Arguments Listener : clear implicits.
Arguments NApp : clear implicits.
Arguments Options : clear implicits.
Arguments Controller : clear implicits.
Arguments Run : clear implicits.

(** ** Loading and unloading all NApps *)

Section AllNApps.
Context {U : Type}.

(** What [os.listdir] finds under the NApps root: [None] when the root
    does not exist, and otherwise its entries in the order of the listing,
    each with the names that it lists in turn.  Every entry of the root is
    taken to be a directory that can be listed. *)
Definition Listing : Type := option (list (string * list string)).

(** ["{}/{}".format(author, napp_name)] *)
Definition full_name (author napp_name : string) : string :=
  author ++ "/" ++ napp_name.

(** The [try] statement encloses both loops: a [FileNotFoundError], from
    [os.listdir] or from the loader inside [load_napp], ends the loading
    and is logged. *)
Definition load_napps (listing : Listing) : M (Controller U) unit :=
  try_except
    (match listing with
     | None => raise FileNotFoundError
     | Some authors =>
         for_each authors (fun '(author, names) =>
           for_each names (fun napp_name =>
             load_napp (full_name author napp_name)))
     end)
    (exn_eqb FileNotFoundError)
    (fun _ => ret tt).

(** [list(self.napps)] lists the names in the order in which they entered
    the registry, an order that the finite map does not keep: the list is
    an argument, [names], which the properties take to list the names of
    the registry. *)
Definition unload_napps (names : list string) : M (Controller U) unit :=
  for_each names (fun napp_name =>
    let* napp := getitem napps napp_name in
    if negb (napp_core napp) then unload_napp napp_name else ret tt).

End AllNApps.

(** ** Definitions used to state the properties

    What a pattern without special characters compiles to, the listeners
    that an event has to reach, the bodies of the loops of the controller as
    functions of their own, and what loading and unloading a NApp do to the
    listener table. *)

Section Derived.
Context {U : Type}.
Implicit Types c : Controller U.
Implicit Types event s : KycoEvent.
Implicit Types table : list (string * list (Listener U)).



(** A match is found at the beginning of the string: what follows the
    part that matched does not matter. *)
Definition extends_well (k : string -> bool) : Prop :=
  forall s t : string, k s = true -> k (s ++ t) = true.

(** The Connection store after the switch registered for [dpid], if any,
    has been disconnected. *)
Definition after_disconnect c (dpid : option string)
    : gmap ConnRef Connection :=
  match dpid with
  | Some d =>
      match switches c !! d with
      | Some sw =>
          match sw_connection sw with
          | Some r' => alter (with_state CLOSED) r' (objects c)
          | None => objects c
          end
      | None => objects c
      end
  | None => objects c
  end.



(** The body of the loop of [notify_listeners]. *)
Definition notify_item event (item : string * list (Listener U))
    : M (Controller U) unit :=
  let '(event_regex, listeners) := item in
  let* m := re_match event_regex (name event) in
  if m then for_each listeners (fun listener => call listener event)
  else ret tt.


(** An event that is not the sentinel the loops compare with. *)
Definition ordinary event : Prop := name event ≠ "kyco/core.shutdown".

(** The run [r], had [post] been in the buffer behind what it read. *)
Definition unread (r : Run U) (post : list KycoEvent) : Run U :=
  {| status := status r; left := (left r ++ post)%list; final := final r |}.


(** The dispatcher loop in the spec's words, for a sentinel name: get an
    event; invoke [notify_listeners]; if the event's name is the sentinel,
    terminate. *)
Fixpoint dispatcher_loop_spec (sentinel : string) (buffer : list KycoEvent) c
    : Run U :=
  match buffer with
  | [] => {| status := Waiting; left := []; final := c |}
  | event :: buffer' =>
      match notify_listeners event c with
      | Ok _ c' =>
          if String.eqb (name event) sentinel
          then {| status := Stopped; left := buffer'; final := c' |}
          else dispatcher_loop_spec sentinel buffer' c'
      | Raise e c' => {| status := Died e; left := buffer'; final := c' |}
      end
  end.

Definition register_item table (item : string * list (Listener U))
    : list (string * list (Listener U)) :=
  let '(event_type, listeners) := item in
  Dict.set event_type
    (default [] (Dict.get event_type table) ++ listeners)%list table.

Definition register_listeners (declared : list (string * list (Listener U)))
    table : list (string * list (Listener U)) :=
  fold_left register_item declared table.




(** The bodies of the two loops. *)
Definition load_item (item : string * list (Listener U))
    : M (Controller U) unit :=
  let '(event_type, listeners) := item in
  let* present := gets (fun c => Dict.mem event_type (events_listeners c)) in
  (if negb present
   then modify (set_events_listeners (Dict.set event_type []))
   else ret tt) >>
  extend event_type listeners.

Definition unload_item (item : string * list (Listener U))
    : M (Controller U) unit :=
  let '(event_type, listeners) := item in
  for_each listeners (fun listener => listeners_remove event_type listener) >>
  let* ls := events_listeners_getitem event_type in
  if Nat.eqb (length ls) 0
  then modify (set_events_listeners (Dict.remove event_type))
  else ret tt.

(** The controller [c] with [table] as its listener table. *)
Definition with_table table c : Controller U :=
  set_events_listeners (fun _ => table) c.





(** Every pattern of [table] still has its listeners in [table'], in the
    same order and ahead of any others. *)
Definition keeps_subscriptions table table' : Prop :=
  forall p l, Dict.get p table = Some l ->
              exists more, Dict.get p table' = Some (l ++ more)%list.

(** The full names that [load_napps] goes through, in its order. *)
Definition listed (authors : list (string * list string)) : list string :=
  flat_map (fun '(author, names) => map (full_name author) names) authors.

(** An action that changes nothing of the controller but the listener
    table, however it ends. *)
Definition table_only {A} (m : M (Controller U) A) : Prop :=
  forall c, exists table', state_of (m c) = with_table table' c.

End Derived.

(** ** Concrete controllers, events and NApps used by the examples *)
Module Scenario.

(** An event with a name and nothing in its content. *)
Definition event_named (n : string) (t : nat) : KycoEvent :=
  {| name := n; timestamp := t; content := ∅ |}.

Definition no_napps {U} : Options U :=
  {| listen := "0.0.0.0"; port := 6633%N; napps_dir := fun _ => None |}.

(** A controller right after [__init__], with one switch registered. *)
Definition switch1 : Switch :=
  {| sw_dpid := "00:00:00:00:00:00:00:01"; sw_connection := None |}.

Definition with_switch1 : Controller unit :=
  set_switches (<["00:00:00:00:00:00:00:01" := switch1]>) (init no_napps tt).

(** Two Connection objects for the same peer address. *)
Definition peer : ConnId := ("10.0.0.1", 6633%N).

Definition connection_a : Connection :=
  {| conn_id := peer; conn_dpid := None; conn_state := NEW; conn_sent := [] |}.

Definition connection_b : Connection :=
  {| conn_id := peer; conn_dpid := Some "00:00:00:00:00:00:00:01";
     conn_state := NEW; conn_sent := [] |}.

(** A new-connection event for the Connection object at [r], under the
    name that the built-in listener is registered for. *)
Definition connection_new (r : ConnRef) (t : nat) : KycoEvent :=
  {| name := "kyco/core.connection.new"; timestamp := t;
     content := {["connection" := VConnection r]} |}.

Definition two_connections : Controller unit :=
  set_objects (fun _ => <[1 := connection_a]> (<[2 := connection_b]> ∅))
    (init no_napps tt).

(** A NApp with one listener that counts the events it receives; the
    NApps' state is the counter. *)
Definition count : Listener nat :=
  napp_method 1 "count" (fun _ => modify S).

Definition counter_napp : NApp nat :=
  {| napp_self := 1; _listeners := [("a.b", [count])];
     napp_start := ret tt; napp_shutdown := ret tt; napp_core := false |}.

Definition counter_options : Options nat :=
  {| listen := "0.0.0.0"; port := 6633%N;
     napps_dir := fun n => if String.eqb n "kytos/counter"
                           then Some (ret counter_napp) else None |}.

(** The controller after [load_napp("kytos/counter")]. *)
Definition counting : Controller nat :=
  state_of (load_napp "kytos/counter" (init counter_options 0)).






(** A NApp with one listener [L] for a pattern. *)
Definition L : Listener unit :=
  napp_method 3 "L" (fun _ => ret tt).

Definition subscriber_napp (pattern : string) : NApp unit :=
  {| napp_self := 3; _listeners := [(pattern, [L])];
     napp_start := ret tt; napp_shutdown := ret tt; napp_core := false |}.

Definition subscriber_options (pattern : string) : Options unit :=
  {| listen := "0.0.0.0"; port := 6633%N;
     napps_dir := fun n => if String.eqb n "kytos/subscriber"
                           then Some (ret (subscriber_napp pattern)) else None |}.

Definition subscribed (pattern : string) : Controller unit :=
  state_of (load_napp "kytos/subscriber" (init (subscriber_options pattern) tt)).

(** The events of the shutdown scenario. *)
Definition E1 : KycoEvent := event_named "a.b" 1.
Definition E2 : KycoEvent := event_named "kyco/core.shutdown" 2.
Definition E2_kytos : KycoEvent := event_named "kytos/core.shutdown" 2.
Definition E3 : KycoEvent := event_named "a.b" 3.



(** A NApp whose [start] raises. *)
Definition failing_napp : NApp unit :=
  {| napp_self := 4; _listeners := [("x", [L])];
     napp_start := raise (UserError "start"); napp_shutdown := ret tt;
     napp_core := false |}.

Definition failing_options : Options unit :=
  {| listen := "0.0.0.0"; port := 6633%N;
     napps_dir := fun n => if String.eqb n "kytos/failing"
                           then Some (ret failing_napp) else None |}.

(** Loading, unloading and loading again the counting NApp. *)
Definition fresh_controller : Controller nat := init counter_options 0.

Definition unloaded : Controller nat :=
  state_of (unload_napp "kytos/counter" counting).


(** A new-connection event whose name goes on after the registered one. *)
Definition connection_new_v2 (r : ConnRef) : KycoEvent :=
  {| name := "kyco/core.connection.new.v2"; timestamp := 0;
     content := {["connection" := VConnection r]} |}.

(** A NApps root with the counting NApp and, before it or behind it, a
    directory without [main.py]. *)
Definition counter_then_missing : Listing :=
  Some [("kytos", ["counter"; "missing"])].

Definition missing_then_counter : Listing :=
  Some [("kytos", ["missing"; "counter"])].

(** A core NApp and a controller that has it and the counting NApp. *)
Definition core_napp : NApp nat :=
  {| napp_self := 5; _listeners := [];
     napp_start := ret tt; napp_shutdown := ret tt; napp_core := true |}.

Definition with_core : Controller nat :=
  set_napps (<["kytos/of_core" := core_napp]>) counting.

(** A NApp whose [shutdown] raises, loaded. *)
Definition stubborn_napp : NApp unit :=
  {| napp_self := 6; _listeners := [("x", [L])];
     napp_start := ret tt; napp_shutdown := raise (UserError "shutdown");
     napp_core := false |}.

Definition stubborn_options : Options unit :=
  {| listen := "0.0.0.0"; port := 6633%N;
     napps_dir := fun n => if String.eqb n "kytos/stubborn"
                           then Some (ret stubborn_napp) else None |}.

Definition stubborn : Controller unit :=
  state_of (load_napp "kytos/stubborn" (init stubborn_options tt)).

(** A NApps root with the NApp whose [start] raises before the counting
    NApp would be loaded. *)
Definition failing_listing : Listing := Some [("kytos", ["failing"; "x"])].

End Scenario.

(** * Properties *)

(** ** The monad *)

Section MonadFacts.
Context {S : Type}.

Lemma bind_ok {A B} (m : M S A) (k : A -> M S B) s a s' :
  m s = Ok a s' -> bind m k s = k a s'.
Proof. intros E. unfold bind. now rewrite E. Qed.

Lemma bind_raise {A B} (m : M S A) (k : A -> M S B) s e s' :
  m s = Raise e s' -> bind m k s = Raise e s'.
Proof. intros E. unfold bind. now rewrite E. Qed.

Lemma for_each_app {A} (l1 l2 : list A) (f : A -> M S unit) s :
  for_each (l1 ++ l2)%list f s =
  match for_each l1 f s with
  | Ok _ s' => for_each l2 f s'
  | Raise e s' => Raise e s'
  end.
Proof.
  revert s. induction l1 as [|x l1 IH]; intros s; simpl; [reflexivity|].
  unfold bind. destruct (f x s) as [[] s1|e s1]; [apply IH|reflexivity].
Qed.

End MonadFacts.

(** ** Registry operations *)

Section RegistryFacts.
Context {U : Type}.
Implicit Types c : Controller U.

Lemma getitem_absent {K V} `{Countable K} (d : Controller U -> gmap K V) k c :
  d c !! k = None -> getitem d k c = Raise KeyError c.
Proof. intros E. unfold getitem. now rewrite E. Qed.

Lemma getitem_present {K V} `{Countable K} (d : Controller U -> gmap K V) k v c :
  d c !! k = Some v -> getitem d k c = Ok v c.
Proof. intros E. unfold getitem. now rewrite E. Qed.

Lemma remove_switch_present dpid sw c :
  switches c !! dpid = Some sw ->
  remove_switch dpid c = Ok VNone (set_switches (delete dpid) c).
Proof.
  intros E. unfold remove_switch, try_except, switches_pop, bind, getitem.
  now rewrite E.
Qed.

Lemma remove_switch_absent dpid c :
  switches c !! dpid = None -> remove_switch dpid c = Ok (VBool false) c.
Proof.
  intros E. unfold remove_switch, try_except, switches_pop, bind, getitem.
  now rewrite E.
Qed.

Lemma remove_connection_present id r c :
  connections c !! id = Some r ->
  remove_connection id c = Ok (VBool true) (set_connections (delete id) c).
Proof.
  intros E. unfold remove_connection, try_except, connections_pop, bind, getitem.
  now rewrite E.
Qed.

Lemma remove_connection_absent id c :
  connections c !! id = None -> remove_connection id c = Ok (VBool false) c.
Proof.
  intros E. unfold remove_connection, try_except, connections_pop, bind, getitem.
  now rewrite E.
Qed.

End RegistryFacts.

(** ** The built-in [new_connection] handler *)

Section NewConnection.
Context {U : Type}.
Implicit Types c : Controller U.

Lemma get_connection_by_id_spec id c :
  get_connection_by_id id c = Ok (connections c !! id) c.
Proof.
  unfold get_connection_by_id, try_except, bind, getitem.
  now destruct (connections c !! id).
Qed.

Lemma get_switch_by_dpid_spec dpid c :
  get_switch_by_dpid dpid c = Ok (switches c !! dpid) c.
Proof.
  unfold get_switch_by_dpid, try_except, bind, getitem.
  now destruct (switches c !! dpid).
Qed.

Lemma attr_spec {A} r (f : Connection -> A) o c :
  objects c !! r = Some o -> attr r f c = Ok (f o) c.
Proof. intros E. unfold attr. now rewrite E. Qed.

Lemma new_connection_spec c event r o :
  content event !! "connection" = Some (VConnection r) ->
  objects c !! r = Some o ->
  exists c',
    new_connection event c = Ok tt c' /\
    connections c' = <[conn_id o := r]> (connections c) /\
    objects c' = after_disconnect c (conn_dpid o) /\
    switches c' = switches c /\
    events_listeners c' = events_listeners c /\
    napps c' = napps c /\ world c' = world c /\ calls c' = calls c.
Proof.
  intros Hc Ho.
  unfold new_connection, content_getitem, connection_attr, attr,
    get_connection_by_id, get_switch_by_dpid, remove_connection,
    connections_pop, Switch_disconnect, try_except, getitem, bind, ret,
    raise, modify, gets.
  rewrite Hc, Ho.
  destruct (connections c !! conn_id o) as [prior|] eqn:E1;
    destruct (conn_dpid o) as [d|] eqn:E2;
    try (destruct (switches c !! d) as [sw|] eqn:E3;
         [destruct (sw_connection sw) as [r'|] eqn:E4|]).
  all: repeat (cbn; rewrite ?Ho, ?E1, ?E2, ?E3, ?E4, ?lookup_alter;
               try case_decide; subst).
  all: eexists; split; [reflexivity|]; cbn; rewrite ?insert_delete_eq;
    repeat split; reflexivity.
Qed.

(** The handler changes nothing of a Connection but its state. *)
Lemma after_disconnect_lookup c dpid r o :
  objects c !! r = Some o ->
  exists o', after_disconnect c dpid !! r = Some o' /\
             conn_id o' = conn_id o /\ conn_dpid o' = conn_dpid o.
Proof.
  intros Ho. unfold after_disconnect.
  destruct dpid as [d|]; [|eauto].
  destruct (switches c !! d) as [sw|]; [|eauto].
  destruct (sw_connection sw) as [r'|]; [|eauto].
  rewrite lookup_alter. case_decide; subst; rewrite Ho; simpl; eauto.
Qed.

(** C6: after the built-in handler has processed a new-connection event
    that carries the Connection object [r], the connections registry maps
    [r]'s id to [r] and leaves every other id as it was, so a prior
    Connection registered at that id is gone from it; [disconnect] has been
    called on the Switch registered for [r]'s dpid, if any, so that its
    Connection is closed; and a second new-connection event for the same
    id makes the registry refer to the second object. *)
Theorem new_connection_replaces c event r o :
  content event !! "connection" = Some (VConnection r) ->
  objects c !! r = Some o ->
  exists c',
    new_connection event c = Ok tt c' /\
    connections c' !! conn_id o = Some r /\
    (forall k, k ≠ conn_id o -> connections c' !! k = connections c !! k) /\
    (forall prior, connections c !! conn_id o = Some prior -> prior ≠ r ->
       connections c' !! conn_id o ≠ Some prior) /\
    (forall d sw,
       conn_dpid o = Some d -> switches c !! d = Some sw ->
       objects c' = objects (state_of (Switch_disconnect sw c)) /\
       forall r' o',
         sw_connection sw = Some r' -> objects c !! r' = Some o' ->
         objects c' !! r' = Some (with_state CLOSED o')) /\
    (forall event2 r2 o2,
       content event2 !! "connection" = Some (VConnection r2) ->
       objects c !! r2 = Some o2 -> conn_id o2 = conn_id o -> r2 ≠ r ->
       exists c'',
         new_connection event2 c' = Ok tt c'' /\
         connections c'' !! conn_id o = Some r2 /\
         connections c'' !! conn_id o ≠ Some r).
Proof.
  intros Hc Ho.
  destruct (new_connection_spec c event r o Hc Ho)
    as (c' & Hrun & Hconn & Hobj & Hsw & _).
  exists c'. split; [exact Hrun|]. rewrite Hconn.
  split; [apply lookup_insert_eq|].
  split; [intros k Hk; now apply lookup_insert_ne|].
  split; [intros prior _ Hne; rewrite lookup_insert_eq; congruence|].
  split.
  - intros d sw Hd Hs. rewrite Hobj. unfold after_disconnect.
    rewrite Hd, Hs. split.
    + unfold Switch_disconnect. now destruct (sw_connection sw).
    + intros r' o' Hr Ho'. now rewrite Hr, lookup_alter_eq, Ho'.
  - intros event2 r2 o2 Hc2 Ho2 Hid Hne.
    destruct (after_disconnect_lookup c (conn_dpid o) r2 o2 Ho2)
      as (o2' & Ho2' & Hid' & _).
    rewrite <- Hobj in Ho2'.
    destruct (new_connection_spec c' event2 r2 o2' Hc2 Ho2')
      as (c'' & Hrun2 & Hconn2 & _).
    exists c''. split; [exact Hrun2|]. rewrite Hconn2, Hid', Hid.
    rewrite lookup_insert_eq. split; congruence.
Qed.

End NewConnection.

Lemma new_connection_replaces_witness :
  exists c',
    new_connection (Scenario.connection_new 1 0) Scenario.two_connections
      = Ok tt c' /\
    connections c' !! Scenario.peer = Some 1 /\
    exists c'',
      new_connection (Scenario.connection_new 2 1) c' = Ok tt c'' /\
      connections c'' !! Scenario.peer = Some 2.
Proof.
  destruct (new_connection_replaces Scenario.two_connections
              (Scenario.connection_new 1 0) 1 Scenario.connection_a
              eq_refl eq_refl)
    as (c' & Hrun & Hat & _ & _ & _ & Hsecond).
  exists c'. split; [exact Hrun|]. split; [exact Hat|].
  destruct (Hsecond (Scenario.connection_new 2 1) 2 Scenario.connection_b
              eq_refl eq_refl eq_refl ltac:(discriminate))
    as (c'' & Hrun2 & Hat2 & _).
  exists c''. split; [exact Hrun2|exact Hat2].
Defined.

(** ** [remove_switch], [send_to] and [unload_napp] on keys that are absent *)

(** C4: on a dpid that is registered, [remove_switch] removes the switch but
    returns [None], not [True]: the [return True] that ends its sibling
    [remove_connection] is missing.  Here the registry holds one switch. *)
Theorem remove_switch_registered_returns_None :
  let dpid := "00:00:00:00:00:00:00:01" in
  switches Scenario.with_switch1 !! dpid = Some Scenario.switch1 /\
  exists c',
    remove_switch dpid Scenario.with_switch1 = Ok VNone c' /\
    switches c' !! dpid = None /\
    remove_switch dpid c' = Ok (VBool false) c'.
Proof.
  cbv zeta. split; [reflexivity|].
  eexists. split; [eapply remove_switch_present; reflexivity|].
  split; [reflexivity|]. apply remove_switch_absent. reflexivity.
Qed.

Section AbsentKeys.
Context {U : Type}.
Implicit Types c : Controller U.

(** C8: [send_to] to a dpid that is not in the switches registry, or to an
    [(ip, port)] that is not in the connections registry, raises
    [KeyError] to the caller, and the controller is as before: nothing has
    been written to any Connection. *)
Theorem send_to_unknown_destination c (message : bytes) :
  (forall dpid, switches c !! dpid = None ->
     send_to (DestDpid dpid) message c = Raise KeyError c) /\
  (forall id, connections c !! id = None ->
     send_to (DestTuple id) message c = Raise KeyError c).
Proof.
  split; intros k E; unfold send_to, try_except, bind, getitem;
    now rewrite E.
Qed.

(** C10: [unload_napp] on a name that is not in the NApp registry raises
    [KeyError] from [self.napps.pop], before anything else happens: the
    controller, with its NApp registry and its listener table, is
    unchanged. *)
Theorem unload_napp_unknown c napp_name :
  napps c !! napp_name = None ->
  unload_napp napp_name c = Raise KeyError c.
Proof.
  intros E. unfold unload_napp, napps_pop, bind, getitem. now rewrite E.
Qed.

(** On a registered connection whose socket is open, [send_to] writes. *)
Lemma send_to_registered_connection c id r o (message : bytes) :
  connections c !! id = Some r -> objects c !! r = Some o ->
  socket_closed (conn_state o) = false ->
  send_to (DestTuple id) message c
  = Ok tt (set_objects (alter (with_sent message) r) c).
Proof.
  intros Hc Ho Hs.
  unfold send_to, try_except, bind, getitem, Connection_send, bind, attr.
  now rewrite Hc, Ho, Hs.
Qed.

(** A switch whose Connection is not established is offline. *)
Lemma send_to_offline_switch c dpid sw r o (message : bytes) :
  switches c !! dpid = Some sw -> sw_connection sw = Some r ->
  objects c !! r = Some o -> established (conn_state o) = false ->
  send_to (DestDpid dpid) message c = Raise KycoSwitchOfflineException c.
Proof.
  intros Hs Hr Ho He.
  unfold send_to, try_except, bind, getitem, Switch_send. rewrite Hs, Hr.
  unfold bind, attr. now rewrite Ho, He.
Qed.

End AbsentKeys.

Lemma send_to_unknown_destination_witness :
  let c : Controller unit := init Scenario.no_napps tt in
  (switches c !! "0xff" = None /\
   send_to (DestDpid "0xff") [] c = Raise KeyError c) /\
  (connections c !! ("10.0.0.9", 6633%N) = None /\
   send_to (DestTuple ("10.0.0.9", 6633%N)) [] c = Raise KeyError c).
Proof.
  cbv zeta. split; (split; [reflexivity|]).
  - apply (proj1 (send_to_unknown_destination _ _)). reflexivity.
  - apply (proj2 (send_to_unknown_destination _ _)). reflexivity.
Defined.

Lemma unload_napp_unknown_witness :
  let c : Controller unit := init Scenario.no_napps tt in
  napps c !! "kytos/of_core" = None /\
  unload_napp "kytos/of_core" c = Raise KeyError c.
Proof.
  cbv zeta. split; [reflexivity|]. apply unload_napp_unknown. reflexivity.
Defined.

(** ** Dispatch *)

Section Dispatch.
Context {U : Type}.
Implicit Types c : Controller U.
Implicit Types event : KycoEvent.













Lemma re_match_spec event_regex s c :
  re_match event_regex s c =
  match Re.match_ event_regex s with
  | Some b => Ok b c
  | None => Raise re_error c
  end.
Proof. unfold re_match. now destruct (Re.match_ event_regex s). Qed.

Lemma notify_items_cons event p ls table c :
  for_each ((p, ls) :: table) (notify_item event) c =
  match Re.match_ p (name event) with
  | Some true =>
      match for_each ls (fun l => call l event) c with
      | Ok _ c1 => for_each table (notify_item event) c1
      | Raise e c1 => Raise e c1
      end
  | Some false => for_each table (notify_item event) c
  | None => Raise re_error c
  end.
Proof.
  simpl. unfold bind. rewrite re_match_spec.
  now destruct (Re.match_ p (name event)) as [[]|].
Qed.


Lemma notify_listeners_unfold event c :
  notify_listeners event c
  = for_each (events_listeners c) (notify_item event) c.
Proof. reflexivity. Qed.


End Dispatch.

(** ** Patterns without special characters *)

Section Literal.





Lemma one_extends a k : extends_well k -> extends_well (Re.one a k).
Proof.
  intros Hk [|c s] t; [discriminate|].
  change (String c s ++ t) with (String c (s ++ t)). simpl.
  intros H. apply andb_prop in H as [Ha Hs]. now rewrite Ha, (Hk _ _ Hs).
Qed.

Lemma star_extends a k : extends_well k -> extends_well (Re.star a k).
Proof.
  intros Hk s. induction s as [|c s IH]; intros t.
  - change ("" ++ t) with t. simpl. intros H. specialize (Hk _ t H).
    change (k t = true) in Hk.
    destruct t as [|c t]; simpl; [exact Hk|]. rewrite Hk. apply orb_true_r.
  - change (String c s ++ t) with (String c (s ++ t)). simpl.
    intros H. apply orb_prop in H as [H|H].
    + apply andb_prop in H as [Ha Hs]. now rewrite Ha, (IH _ Hs).
    + specialize (Hk _ t H). change (k (String c (s ++ t)) = true) in Hk.
      rewrite Hk. apply orb_true_r.
Qed.

Lemma match_items_extends its : extends_well (Re.match_items its).
Proof.
  induction its as [|[a q] its IH]; [now intros s t|].
  destruct q; simpl.
  - now apply one_extends.
  - now apply star_extends.
  - now apply one_extends, star_extends.
  - intros s t H. apply orb_prop in H as [H|H].
    + now rewrite (one_extends a _ IH _ _ H).
    + rewrite (IH _ _ H). apply orb_true_r.
Qed.

Lemma match_extends p s t :
  Re.match_ p s = Some true -> Re.match_ p (s ++ t) = Some true.
Proof.
  unfold Re.match_. destruct (Re.compile p) as [its|]; simpl; [|discriminate].
  intros [= H]. now rewrite (match_items_extends its _ _ H).
Qed.

End Literal.

(** ** The dispatcher loops *)

Section Loops.
Context {U : Type}.
Implicit Types c : Controller U.
Implicit Types event s : KycoEvent.

Lemma ordinary_eqb event :
  ordinary event -> String.eqb (name event) "kyco/core.shutdown" = false.
Proof. intros H. now apply String.eqb_neq. Qed.

Lemma raw_app_ordinary evs c :
  Forall ordinary evs -> raw_event_handler evs c = app_event_handler evs c.
Proof.
  intros H. revert c. induction H as [|event evs He _ IH]; intros c; simpl.
  - reflexivity.
  - rewrite (ordinary_eqb _ He).
    destruct (notify_listeners event c) as [[] c1|e c1]; [apply IH|reflexivity].
Qed.

Lemma app_is_spec_loop evs c :
  app_event_handler evs c = dispatcher_loop_spec "kyco/core.shutdown" evs c.
Proof.
  revert c. induction evs as [|event evs IH]; intros c; simpl; [reflexivity|].
  destruct (notify_listeners event c) as [[] c1|e c1]; [|reflexivity].
  now rewrite IH.
Qed.

(** Ordinary events never make the raw loop [break]; it ends on them
    blocked in [get] with the buffer empty, or by an exception. *)
Lemma raw_ordinary_status evs c :
  Forall ordinary evs ->
  (status (raw_event_handler evs c) = Waiting /\
   left (raw_event_handler evs c) = []) \/
  exists e, status (raw_event_handler evs c) = Died e.
Proof.
  intros H. revert c. induction H as [|event evs He _ IH]; intros c; simpl.
  - now left.
  - rewrite (ordinary_eqb _ He).
    destruct (notify_listeners event c) as [[] c1|e c1]; [apply IH|].
    right. now exists e.
Qed.

Lemma raw_prefix pre rest c :
  Forall ordinary pre ->
  raw_event_handler (pre ++ rest) c =
  match status (raw_event_handler pre c) with
  | Waiting => raw_event_handler rest (final (raw_event_handler pre c))
  | _ => unread (raw_event_handler pre c) rest
  end.
Proof.
  intros H. revert c. induction H as [|event evs He _ IH]; intros c; simpl.
  - reflexivity.
  - rewrite (ordinary_eqb _ He).
    destruct (notify_listeners event c) as [[] c1|e c1]; [apply IH|reflexivity].
Qed.

Lemma app_prefix pre rest c :
  Forall ordinary pre ->
  app_event_handler (pre ++ rest) c =
  match status (app_event_handler pre c) with
  | Waiting => app_event_handler rest (final (app_event_handler pre c))
  | _ => unread (app_event_handler pre c) rest
  end.
Proof.
  intros H. revert c. induction H as [|event evs He _ IH]; intros c; simpl.
  - reflexivity.
  - rewrite (ordinary_eqb _ He).
    destruct (notify_listeners event c) as [[] c1|e c1]; [apply IH|reflexivity].
Qed.

(** What each loop does with the sentinel at the head of its buffer. *)
Lemma raw_sentinel s post c :
  name s = "kyco/core.shutdown" ->
  raw_event_handler (s :: post) c
  = {| status := Stopped; left := post; final := c |}.
Proof. intros H. simpl. now rewrite H. Qed.

Lemma app_sentinel s post c :
  name s = "kyco/core.shutdown" ->
  app_event_handler (s :: post) c =
  match notify_listeners s c with
  | Ok _ c' => {| status := Stopped; left := post; final := c' |}
  | Raise e c' => {| status := Died e; left := post; final := c' |}
  end.
Proof. intros H. simpl. now rewrite H. Qed.

Lemma unread_unread (r : Run U) p q :
  unread (unread r p) q = unread r (p ++ q)%list.
Proof. unfold unread. simpl. now rewrite <- app_assoc. Qed.

(** Nothing behind the first sentinel is read. *)
Lemma raw_behind_sentinel pre s post c :
  name s = "kyco/core.shutdown" -> Forall ordinary pre ->
  raw_event_handler (pre ++ s :: post) c
  = unread (raw_event_handler (pre ++ [s]) c) post /\
  status (raw_event_handler (pre ++ [s]) c) ≠ Waiting.
Proof.
  intros Hs Hpre. rewrite !(raw_prefix pre _ c Hpre).
  destruct (raw_ordinary_status pre c Hpre) as [[E _]|[e E]]; rewrite E.
  - rewrite !(raw_sentinel _ _ _ Hs). now split.
  - rewrite unread_unread. split; [reflexivity|]. simpl. now rewrite E.
Qed.

Lemma app_behind_sentinel pre s post c :
  name s = "kyco/core.shutdown" -> Forall ordinary pre ->
  app_event_handler (pre ++ s :: post) c
  = unread (app_event_handler (pre ++ [s]) c) post /\
  status (app_event_handler (pre ++ [s]) c) ≠ Waiting.
Proof.
  intros Hs Hpre. rewrite !(app_prefix pre _ c Hpre).
  rewrite <- (raw_app_ordinary pre c Hpre).
  destruct (raw_ordinary_status pre c Hpre) as [[E _]|[e E]]; rewrite E.
  - rewrite !(app_sentinel _ _ _ Hs).
    now destruct (notify_listeners s _) as [[] c'|e c'].
  - rewrite unread_unread. split; [reflexivity|]. simpl. now rewrite E.
Qed.

End Loops.

(** ** The claims on dispatch *)

(** C1, amended: the name that the loops compare with is
    [kyco/core.shutdown].  With that name, for the raw and the app loop and
    every buffer content [pre ++ s :: post] whose first sentinel is [s]:
    the loop does not read [post], which has no influence on the run and
    stays in the buffer, and it does not end blocked in [get]; when the
    events of [pre] are delivered without an exception the loop ends by
    [break] on [s], which the raw loop does not deliver and the app loop
    delivers before it stops.  With [a.b], [kyco/core.shutdown], [a.b] in
    the raw buffer and a listener counting the [a.b] events, the counter
    ends at 1 and the loop has stopped. *)
Theorem shutdown_stops_dispatchers :
  (forall U (c : Controller U) pre s post,
     name s = "kyco/core.shutdown" -> Forall ordinary pre ->
     (raw_event_handler (pre ++ s :: post) c
        = unread (raw_event_handler (pre ++ [s]) c) post /\
      status (raw_event_handler (pre ++ [s]) c) ≠ Waiting /\
      forall c',
        raw_event_handler pre c
          = {| status := Waiting; left := []; final := c' |} ->
        raw_event_handler (pre ++ s :: post) c
          = {| status := Stopped; left := post; final := c' |}) /\
     (app_event_handler (pre ++ s :: post) c
        = unread (app_event_handler (pre ++ [s]) c) post /\
      status (app_event_handler (pre ++ [s]) c) ≠ Waiting /\
      forall c' c'',
        app_event_handler pre c
          = {| status := Waiting; left := []; final := c' |} ->
        notify_listeners s c' = Ok tt c'' ->
        app_event_handler (pre ++ s :: post) c
          = {| status := Stopped; left := post; final := c'' |})) /\
  (let r := raw_event_handler [Scenario.E1; Scenario.E2; Scenario.E3]
              Scenario.counting in
   status r = Stopped /\ world (final r) = 1 /\ left r = [Scenario.E3] /\
   calls (final r) = [(Scenario.count, Scenario.E1)]).
Proof.
  split; [|now vm_compute].
  intros U c pre s post Hs Hpre. split.
  - destruct (raw_behind_sentinel pre s post c Hs Hpre) as [H1 H2].
    split; [exact H1|]. split; [exact H2|].
    intros c' E. rewrite (raw_prefix pre _ c Hpre), E. simpl status.
    simpl final. now apply raw_sentinel.
  - destruct (app_behind_sentinel pre s post c Hs Hpre) as [H1 H2].
    split; [exact H1|]. split; [exact H2|].
    intros c' c'' E En. rewrite (app_prefix pre _ c Hpre), E. simpl status.
    simpl final. rewrite (app_sentinel _ _ _ Hs). now rewrite En.
Qed.

Lemma shutdown_stops_dispatchers_witness :
  name Scenario.E2 = "kyco/core.shutdown" /\
  Forall ordinary [Scenario.E1] /\
  raw_event_handler ([Scenario.E1] ++ Scenario.E2 :: [Scenario.E3])
    Scenario.counting
  = unread (raw_event_handler ([Scenario.E1] ++ [Scenario.E2])
              Scenario.counting) [Scenario.E3].
Proof.
  assert (H : Forall ordinary [Scenario.E1])
    by (repeat constructor; intros E; discriminate E).
  split; [reflexivity|]. split; [exact H|].
  exact (proj1 (proj1 (proj1 shutdown_stops_dispatchers nat Scenario.counting
                         [Scenario.E1] Scenario.E2 [Scenario.E3] eq_refl H))).
Defined.

(** C1 as stated fails: an event named [kytos/core.shutdown] is an ordinary
    event for the raw loop, which goes on to deliver the [a.b] event behind
    it and then blocks in [get]. *)
Lemma kytos_shutdown_does_not_stop :
  let r := raw_event_handler [Scenario.E1; Scenario.E2_kytos; Scenario.E3]
             Scenario.counting in
  status r = Waiting /\ world (final r) = 2 /\ left r = [] /\
  ~ (status r = Stopped /\ world (final r) = 1).
Proof.
  cbv zeta. split; [now vm_compute|]. split; [now vm_compute|].
  split; [now vm_compute|]. intros [H _]. vm_compute in H. discriminate H.
Qed.

(** C3, amended: the app loop is the loop that the spec describes, with
    [kyco/core.shutdown] as the sentinel.  The raw loop is the same
    function of the buffer content as long as no sentinel is read, and
    whenever a listener exception ends the loops before the sentinel; the
    two differ on the sentinel itself, which the raw loop does not pass to
    [notify_listeners] (it compares the name first and leaves the loop)
    while the app loop notifies the listeners and then leaves the loop. *)
Theorem dispatchers_differ_on_sentinel :
  forall U (c : Controller U),
    (forall evs,
       app_event_handler evs c
       = dispatcher_loop_spec "kyco/core.shutdown" evs c) /\
    (forall evs, Forall ordinary evs ->
       raw_event_handler evs c = app_event_handler evs c) /\
    (forall pre s post, Forall ordinary pre ->
       status (raw_event_handler pre c) ≠ Waiting ->
       raw_event_handler (pre ++ s :: post) c
       = app_event_handler (pre ++ s :: post) c) /\
    (forall pre s post c',
       name s = "kyco/core.shutdown" -> Forall ordinary pre ->
       raw_event_handler pre c
         = {| status := Waiting; left := []; final := c' |} ->
       raw_event_handler (pre ++ s :: post) c
         = {| status := Stopped; left := post; final := c' |} /\
       app_event_handler (pre ++ s :: post) c
         = match notify_listeners s c' with
           | Ok _ c'' => {| status := Stopped; left := post; final := c'' |}
           | Raise e c'' => {| status := Died e; left := post; final := c'' |}
           end).
Proof.
  intros U c. split; [intros evs; apply app_is_spec_loop|].
  split; [intros evs H; now apply raw_app_ordinary|]. split.
  - intros pre s post Hpre Hst.
    rewrite (raw_prefix pre _ c Hpre), (app_prefix pre _ c Hpre).
    rewrite <- (raw_app_ordinary pre c Hpre).
    now destruct (status (raw_event_handler pre c)).
  - intros pre s post c' Hs Hpre E.
    rewrite (raw_prefix pre _ c Hpre), (app_prefix pre _ c Hpre).
    rewrite <- (raw_app_ordinary pre c Hpre), E. simpl status. simpl final.
    split; [now apply raw_sentinel|now apply app_sentinel].
Qed.

Lemma dispatchers_differ_on_sentinel_witness :
  Forall ordinary [Scenario.E1] /\
  raw_event_handler [Scenario.E1] Scenario.counting
  = app_event_handler [Scenario.E1] Scenario.counting.
Proof.
  assert (H : Forall ordinary [Scenario.E1])
    by (repeat constructor; intros E; discriminate E).
  split; [exact H|].
  exact (proj1 (proj2 (dispatchers_differ_on_sentinel nat Scenario.counting))
           [Scenario.E1] H).
Defined.

(** C3 as stated fails: with a listener subscribed to the sentinel's name
    and the sentinel alone in the buffer, the app loop invokes the
    listener and the raw loop does not. *)
Lemma sentinel_delivered_on_app_only :
  let c := Scenario.subscribed "kyco/core\.shutdown" in
  Dict.get "kyco/core\.shutdown" (events_listeners c) = Some [Scenario.L] /\
  calls (final (raw_event_handler [Scenario.E2] c)) = [] /\
  calls (final (app_event_handler [Scenario.E2] c))
    = [(Scenario.L, Scenario.E2)] /\
  calls (final (raw_event_handler [Scenario.E2] c))
    ≠ calls (final (app_event_handler [Scenario.E2] c)).
Proof.
  cbv zeta. split; [now vm_compute|]. split; [now vm_compute|].
  split; [now vm_compute|].
  intros H. apply (f_equal length) in H. vm_compute in H. discriminate H.
Qed.






(** ** Dictionaries in insertion order *)

Section DictFacts.
Context {V : Type}.
Implicit Types d : list (string * V).

Lemma get_set_eq k v d : Dict.get k (Dict.set k v d) = Some v.
Proof.
  induction d as [|[k' v'] d IH]; simpl.
  - now rewrite String.eqb_refl.
  - destruct (String.eqb k' k) eqn:E; simpl; now rewrite E.
Qed.

Lemma get_set_ne k k' v d :
  k ≠ k' -> Dict.get k' (Dict.set k v d) = Dict.get k' d.
Proof.
  intros Hne. induction d as [|[k0 v0] d IH]; simpl.
  - apply String.eqb_neq in Hne. now rewrite Hne.
  - destruct (String.eqb k0 k) eqn:E; simpl; [|now rewrite IH].
    apply String.eqb_eq in E. subst k0.
    apply String.eqb_neq in Hne. now rewrite Hne.
Qed.

Lemma set_set k v v' d : Dict.set k v (Dict.set k v' d) = Dict.set k v d.
Proof.
  induction d as [|[k0 v0] d IH]; simpl.
  - now rewrite String.eqb_refl.
  - destruct (String.eqb k0 k) eqn:E; simpl; rewrite E; [reflexivity|].
    now rewrite IH.
Qed.


Lemma remove_absent k d : Dict.get k d = None -> Dict.remove k d = d.
Proof.
  induction d as [|[k0 v0] d IH]; simpl; [reflexivity|].
  destruct (String.eqb k0 k) eqn:E; [discriminate|].
  intros H. now rewrite IH.
Qed.





Lemma get_absent k d : k ∉ Dict.keys d -> Dict.get k d = None.
Proof.
  induction d as [|[k0 v0] d IH]; simpl; [reflexivity|].
  intros H. apply not_elem_of_cons in H as [Hne H].
  assert (E : String.eqb k0 k = false) by (apply String.eqb_neq; congruence).
  rewrite E. now apply IH.
Qed.

Lemma get_present k d : Dict.get k d = None -> k ∉ Dict.keys d.
Proof.
  induction d as [|[k0 v0] d IH]; simpl.
  - intros _ H. inversion H.
  - destruct (String.eqb k0 k) eqn:E; [discriminate|].
    intros H. apply not_elem_of_cons. split; [|now apply IH].
    apply String.eqb_neq in E. congruence.
Qed.



Lemma get_cons k k0 v0 d :
  Dict.get k ((k0, v0) :: d)
  = if String.eqb k0 k then Some v0 else Dict.get k d.
Proof. reflexivity. Qed.

Lemma mem_get k d :
  Dict.mem k d = match Dict.get k d with Some _ => true | None => false end.
Proof. reflexivity. Qed.

End DictFacts.

(** ** Loading and unloading NApps *)

Section NApps.
Context {U : Type}.
Implicit Types c : Controller U.
Implicit Types table : list (string * list (Listener U)).

Lemma with_table_id c : with_table (events_listeners c) c = c.
Proof. now destruct c. Qed.

Lemma load_item_spec item c :
  load_item item c
  = Ok tt (with_table (register_item (events_listeners c) item) c).
Proof.
  destruct item as [p ls].
  unfold load_item, extend, events_listeners_getitem, bind, gets, modify, ret.
  rewrite mem_get. simpl register_item.
  destruct (Dict.get p (events_listeners c)) as [l0|] eqn:E; simpl.
  - now rewrite E.
  - rewrite get_set_eq. unfold with_table, set_events_listeners. simpl.
    now rewrite set_set.
Qed.

Lemma load_items_spec declared c :
  for_each declared load_item c
  = Ok tt (with_table (register_listeners declared (events_listeners c)) c).
Proof.
  revert c. induction declared as [|item declared IH]; intros c; simpl.
  - unfold ret. now rewrite with_table_id.
  - unfold bind. rewrite load_item_spec, IH. reflexivity.
Qed.




(** *** Unloading undoes loading *)





Lemma get_register_item_ne table p q listeners :
  q ≠ p -> Dict.get p (register_item table (q, listeners)) = Dict.get p table.
Proof. intros H. unfold register_item. now apply get_set_ne. Qed.







(** The table after a load, pattern by pattern. *)
Lemma get_register_listeners declared : forall table k,
  NoDup (Dict.keys declared) ->
  Dict.get k (register_listeners declared table) =
  match Dict.get k declared with
  | Some ls => Some (default [] (Dict.get k table) ++ ls)%list
  | None => Dict.get k table
  end.
Proof.
  induction declared as [|[p ls] declared IH]; intros table k Hnd;
    [reflexivity|].
  simpl in Hnd. apply NoDup_cons in Hnd as [Hp Hnd].
  change (register_listeners ((p, ls) :: declared) table)
    with (register_listeners declared (register_item table (p, ls))).
  rewrite (IH _ k Hnd), get_cons.
  destruct (String.eqb p k) eqn:E.
  - apply String.eqb_eq in E. subst k.
    rewrite (get_absent p declared Hp). apply get_set_eq.
  - apply String.eqb_neq in E.
    now rewrite (get_register_item_ne table k p ls E).
Qed.



(** *** [load_napp] and [unload_napp] step by step *)

Lemma set_world_id c : set_world (world c) c = c.
Proof. now destruct c. Qed.

(** Instantiating a NApp runs NApp code and touches nothing else. *)
Lemma instantiate_effect napp_name c :
  exists w, state_of (instantiate napp_name c) = set_world w c.
Proof.
  unfold instantiate, bind, gets.
  destruct (napps_dir (options c) napp_name) as [Main|]; simpl.
  - unfold napp_code. destruct (Main (world c)) as [napp w|e w]; now exists w.
  - exists (world c). now rewrite set_world_id.
Qed.

Lemma load_napp_unfold napp_name c :
  load_napp napp_name c =
  match instantiate napp_name c with
  | Ok napp c1 =>
      napp_code (napp_start napp)
        (with_table
           (register_listeners (_listeners napp) (events_listeners c1))
           (set_napps (<[napp_name := napp]>) c1))
  | Raise e c1 => Raise e c1
  end.
Proof.
  unfold load_napp, bind.
  destruct (instantiate napp_name c) as [napp c1|e c1]; [|reflexivity].
  unfold modify at 1.
  change (for_each (_listeners napp) _ ?s)
    with (for_each (_listeners napp) load_item s).
  now rewrite load_items_spec.
Qed.

Lemma unload_napp_unfold napp_name napp c :
  napps c !! napp_name = Some napp ->
  unload_napp napp_name c =
  match napp_code (napp_shutdown napp) (set_napps (delete napp_name) c) with
  | Ok _ c1 => for_each (_listeners napp) unload_item c1
  | Raise e c1 => Raise e c1
  end.
Proof.
  intros E. unfold unload_napp, napps_pop, bind, getitem. rewrite E.
  reflexivity.
Qed.


End NApps.

(** ** The claims on NApps *)

(** C7, amended: when the instantiation of the NApp fails, [load_napp]
    fails with the listener table and the NApp registry unchanged, since
    the listeners are registered after the instantiation.  When [start()]
    fails, the exception leaves [load_napp] with the NApp still in the
    registry and its listeners still registered, behind those that each
    pattern had: [load_napp] has no compensating unsubscribe. *)
Theorem load_napp_failure :
  forall U (c : Controller U) napp_name,
    (forall e c1,
       instantiate napp_name c = Raise e c1 ->
       load_napp napp_name c = Raise e c1 /\
       events_listeners c1 = events_listeners c /\
       napps c1 = napps c) /\
    (forall napp c1 e w,
       instantiate napp_name c = Ok napp c1 ->
       napp_start napp (world c1) = Raise e w ->
       exists c2,
         load_napp napp_name c = Raise e c2 /\
         napps c2 !! napp_name = Some napp /\
         events_listeners c2
           = register_listeners (_listeners napp) (events_listeners c) /\
         (NoDup (Dict.keys (_listeners napp)) ->
          forall event_type listeners,
            Dict.get event_type (_listeners napp) = Some listeners ->
            Dict.get event_type (events_listeners c2)
            = Some (default [] (Dict.get event_type (events_listeners c))
                    ++ listeners)%list)).
Proof.
  intros U c napp_name. split.
  - intros e c1 E. rewrite load_napp_unfold, E. split; [reflexivity|].
    destruct (instantiate_effect napp_name c) as [w Hw]. rewrite E in Hw.
    simpl in Hw. now subst c1.
  - intros napp c1 e w E Hstart. rewrite load_napp_unfold, E.
    destruct (instantiate_effect napp_name c) as [w1 Hw]. rewrite E in Hw.
    simpl in Hw. subst c1. unfold napp_code. simpl. simpl in Hstart.
    rewrite Hstart. eexists. split; [reflexivity|]. simpl.
    split; [apply lookup_insert_eq|]. split; [reflexivity|].
    intros Hnd k ls Hk. now rewrite (get_register_listeners _ _ k Hnd), Hk.
Qed.

Lemma load_napp_failure_witness :
  let c := init Scenario.failing_options tt in
  instantiate "kytos/failing" c = Ok Scenario.failing_napp c /\
  napp_start Scenario.failing_napp (world c) = Raise (UserError "start") tt /\
  exists c2,
    load_napp "kytos/failing" c = Raise (UserError "start") c2 /\
    napps c2 !! "kytos/failing" = Some Scenario.failing_napp /\
    events_listeners c2
      = register_listeners (_listeners Scenario.failing_napp)
          (events_listeners c).
Proof.
  cbv zeta. split; [reflexivity|]. split; [reflexivity|].
  destruct (proj2 (load_napp_failure unit (init Scenario.failing_options tt)
                     "kytos/failing")
              Scenario.failing_napp _ _ tt eq_refl eq_refl)
    as (c2 & H1 & H2 & H3 & _).
  exists c2. split; [exact H1|]. split; [exact H2|exact H3].
Defined.

(** C7 as stated fails: after a [load_napp] that failed in [start()], the
    listener of the NApp is in the table. *)
Lemma failed_start_leaves_listeners :
  let c := init Scenario.failing_options tt in
  let r := load_napp "kytos/failing" c in
  (exists c2, r = Raise (UserError "start") c2) /\
  Dict.get "x" (events_listeners c) = None /\
  Dict.get "x" (events_listeners (state_of r)) = Some [Scenario.L] /\
  events_listeners (state_of r) ≠ events_listeners c.
Proof.
  cbv zeta. split; [eexists; reflexivity|]. split; [reflexivity|].
  split; [reflexivity|]. intros H. apply (f_equal length) in H.
  vm_compute in H. discriminate H.
Qed.




(** * Further properties of the controller *)

(** ** The registries and the built-in listener *)

Section Registries.
Context {U : Type}.
Implicit Types c : Controller U.

(** [remove_connection] never raises: it answers whether the id was
    registered, the id is not registered afterwards, so that a second call
    answers [False], and nothing else of the controller changes. *)
Theorem remove_connection_contract c id :
  exists c',
    remove_connection id c
      = Ok (VBool (match connections c !! id with
                   | Some _ => true
                   | None => false
                   end)) c' /\
    c' = set_connections (delete id) c /\
    connections c' !! id = None /\
    (forall k, k ≠ id -> connections c' !! k = connections c !! k) /\
    remove_connection id c' = Ok (VBool false) c'.
Proof.
  exists (set_connections (delete id) c).
  assert (Hgone : connections (set_connections (delete id) c) !! id = None)
    by apply lookup_delete_eq.
  split; [|split; [reflexivity|split; [exact Hgone|split]]].
  - destruct (connections c !! id) as [r|] eqn:E.
    + now apply remove_connection_present with r.
    + rewrite (remove_connection_absent id c E). f_equal.
      destruct c; unfold set_connections; simpl in *.
      now rewrite (delete_id _ _ E).
  - intros k Hk. simpl. now apply lookup_delete_ne.
  - now apply remove_connection_absent.
Qed.

(** The exact controller that the handler leaves. *)
Lemma new_connection_exact c event r o :
  content event !! "connection" = Some (VConnection r) ->
  objects c !! r = Some o ->
  new_connection event c
  = Ok tt (set_connections (<[conn_id o := r]>)
             (set_objects (fun _ => after_disconnect c (conn_dpid o)) c)).
Proof.
  intros Hc Ho.
  unfold new_connection, content_getitem, connection_attr, attr,
    get_connection_by_id, get_switch_by_dpid, remove_connection,
    connections_pop, Switch_disconnect, try_except, getitem, bind, ret,
    raise, modify, gets, after_disconnect.
  rewrite Hc, Ho.
  destruct (connections c !! conn_id o) as [prior|] eqn:E1;
    destruct (conn_dpid o) as [d|] eqn:E2;
    try (destruct (switches c !! d) as [sw|] eqn:E3;
         [destruct (sw_connection sw) as [r'|] eqn:E4|]).
  all: repeat (cbn; rewrite ?Ho, ?E1, ?E2, ?E3, ?E4, ?lookup_alter;
               try case_decide; subst).
  all: unfold set_connections, set_objects; cbn;
    rewrite ?insert_delete_eq; reflexivity.
Qed.

(** Whether the handler can run on an event. *)
Lemma new_connection_cases c event :
  (exists r o, content event !! "connection" = Some (VConnection r) /\
               objects c !! r = Some o) \/
  (exists e, new_connection event c = Raise e c).
Proof.
  unfold new_connection, content_getitem.
  destruct (content event !! "connection") as [v|] eqn:Hc;
    [|right; now exists KeyError].
  destruct v as [| | | |r]; try (right; now exists AttributeError).
  destruct (objects c !! r) as [o|] eqn:Ho; [left; now exists r, o|].
  right. exists AttributeError. unfold bind, ret. simpl. unfold attr.
  now rewrite Ho.
Qed.


(** Processing the same new-connection event again changes nothing: the
    registry refers to the same Connection and the Connection that was
    disconnected stays closed. *)
Theorem new_connection_idempotent c c1 event :
  new_connection event c = Ok tt c1 ->
  new_connection event c1 = Ok tt c1.
Proof.
  intros H.
  destruct (new_connection_cases c event) as [(r & o & Hc & Ho)|[e He]];
    [|rewrite He in H; discriminate H].
  rewrite (new_connection_exact c event r o Hc Ho) in H.
  injection H as <-.
  destruct (after_disconnect_lookup c (conn_dpid o) r o Ho)
    as (o' & Ho' & Hid & Hdpid).
  rewrite (new_connection_exact _ event r o' Hc); [|exact Ho'].
  rewrite Hid, Hdpid. f_equal.
  unfold set_connections, set_objects; simpl. f_equal.
  - apply insert_insert_eq.
  - unfold after_disconnect; simpl.
    destruct (conn_dpid o) as [d|]; [|reflexivity].
    destruct (switches c !! d) as [sw|]; [|reflexivity].
    destruct (sw_connection sw) as [r'|]; [|reflexivity].
    apply map_eq. intros k. destruct (decide (r' = k)) as [->|Hne].
    + rewrite !lookup_alter_eq. destruct (objects c !! k); reflexivity.
    + now rewrite !lookup_alter_ne.
Qed.

(** A Connection announced by an event can be looked up by its id, and
    after [remove_connection], which answers [True], it cannot; the other
    ids are as they were before the event. *)
Theorem connection_round_trip c event r o :
  content event !! "connection" = Some (VConnection r) ->
  objects c !! r = Some o ->
  exists c1 c2,
    new_connection event c = Ok tt c1 /\
    get_connection_by_id (conn_id o) c1 = Ok (Some r) c1 /\
    remove_connection (conn_id o) c1 = Ok (VBool true) c2 /\
    get_connection_by_id (conn_id o) c2 = Ok None c2 /\
    (forall k, k ≠ conn_id o -> connections c2 !! k = connections c !! k).
Proof.
  intros Hc Ho. eexists. eexists.
  split; [apply (new_connection_exact c event r o Hc Ho)|].
  split.
  { rewrite get_connection_by_id_spec. simpl. now rewrite lookup_insert_eq. }
  split.
  { eapply remove_connection_present. simpl. apply lookup_insert_eq. }
  split.
  { rewrite get_connection_by_id_spec. simpl. now rewrite lookup_delete_eq. }
  intros k Hk. simpl.
  now rewrite lookup_delete_ne, lookup_insert_ne by congruence.
Qed.

End Registries.


Lemma new_connection_idempotent_witness :
  let c1 := state_of (new_connection (Scenario.connection_new 1 0)
                        Scenario.two_connections) in
  new_connection (Scenario.connection_new 1 0) Scenario.two_connections
    = Ok tt c1 /\
  new_connection (Scenario.connection_new 1 0) c1 = Ok tt c1.
Proof.
  cbv zeta.
  assert (H : new_connection (Scenario.connection_new 1 0)
                Scenario.two_connections
              = Ok tt (state_of (new_connection (Scenario.connection_new 1 0)
                                   Scenario.two_connections)))
    by (vm_compute; reflexivity).
  split; [exact H|].
  exact (new_connection_idempotent _ _ _ H).
Defined.

Lemma connection_round_trip_witness :
  exists c1 c2,
    new_connection (Scenario.connection_new 1 0) Scenario.two_connections
      = Ok tt c1 /\
    get_connection_by_id Scenario.peer c1 = Ok (Some 1) c1 /\
    remove_connection Scenario.peer c1 = Ok (VBool true) c2 /\
    get_connection_by_id Scenario.peer c2 = Ok None c2.
Proof.
  destruct (connection_round_trip Scenario.two_connections
              (Scenario.connection_new 1 0) 1 Scenario.connection_a
              eq_refl eq_refl)
    as (c1 & c2 & H1 & H2 & H3 & H4 & _).
  exists c1, c2. repeat split; assumption.
Defined.

(** ** Dispatch, continued *)

Section MoreDispatch.
Context {U : Type}.
Implicit Types c : Controller U.
Implicit Types event : KycoEvent.



(** A loop leaves by [break] only on the sentinel: when it has stopped, the
    buffer held an event named [kyco/core.shutdown], the events before the
    first such event were ordinary ones, and the events behind it are
    what is left in the buffer. *)
Theorem stops_only_on_sentinel evs : forall c,
  (status (raw_event_handler evs c) = Stopped ->
   exists pre s post,
     evs = (pre ++ s :: post)%list /\ Forall ordinary pre /\
     name s = "kyco/core.shutdown" /\
     left (raw_event_handler evs c) = post) /\
  (status (app_event_handler evs c) = Stopped ->
   exists pre s post,
     evs = (pre ++ s :: post)%list /\ Forall ordinary pre /\
     name s = "kyco/core.shutdown" /\
     left (app_event_handler evs c) = post).
Proof.
  induction evs as [|event evs IH]; intros c; [split; discriminate|].
  simpl raw_event_handler. simpl app_event_handler.
  destruct (String.eqb (name event) "kyco/core.shutdown") eqn:E.
  - apply String.eqb_eq in E. split.
    + intros _. now exists [], event, evs.
    + destruct (notify_listeners event c) as [[] c1|e c1]; [|discriminate].
      intros _. now exists [], event, evs.
  - apply String.eqb_neq in E.
    destruct (notify_listeners event c) as [[] c1|e c1]; [|split; discriminate].
    destruct (IH c1) as [IHraw IHapp].
    split; intros H; [apply IHraw in H|apply IHapp in H];
      destruct H as (pre & s & post & -> & Hpre & Hs & Hleft);
      exists (event :: pre), s, post; repeat split; try assumption;
      now constructor.
Qed.

(** On a controller whose listener table is the initial one, an event on
    [raw] whose name begins with [kyco/core.connection.new] and that
    carries a Connection reaches the built-in handler, once, and the
    Connection is registered. *)
Theorem connection_new_reaches_handler c event suffix r o :
  events_listeners c
    = [("kyco/core.connection.new", [new_connection_method])] ->
  name event = "kyco/core.connection.new" ++ suffix ->
  content event !! "connection" = Some (VConnection r) ->
  objects c !! r = Some o ->
  exists c',
    raw_event_handler [event] c
      = {| status := Waiting; left := []; final := c' |} /\
    connections c' !! conn_id o = Some r /\
    calls c' = (calls c ++ [(new_connection_method, event)])%list.
Proof.
  intros Htable Hname Hc Ho.
  assert (Hord : String.eqb (name event) "kyco/core.shutdown" = false).
  { rewrite Hname. apply String.eqb_neq. intros E. cbv in E. discriminate E. }
  assert (Hm : Re.match_ "kyco/core.connection.new" (name event) = Some true).
  { rewrite Hname. apply match_extends. vm_compute. reflexivity. }
  simpl raw_event_handler. rewrite Hord, notify_listeners_unfold, Htable.
  rewrite notify_items_cons, Hm. simpl for_each. unfold bind at 1.
  unfold call, bind at 1. unfold modify at 1.
  rewrite (new_connection_exact
             (log_call new_connection_method event c) event r o Hc Ho).
  unfold ret. eexists. split; [reflexivity|]. simpl.
  split; [apply lookup_insert_eq|reflexivity].
Qed.


End MoreDispatch.



Lemma stops_only_on_sentinel_witness :
  let evs := [Scenario.E1; Scenario.E2; Scenario.E3] in
  status (raw_event_handler evs Scenario.counting) = Stopped /\
  exists pre s post,
    evs = (pre ++ s :: post)%list /\ Forall ordinary pre /\
    name s = "kyco/core.shutdown" /\
    left (raw_event_handler evs Scenario.counting) = post.
Proof.
  cbv zeta.
  assert (H : status (raw_event_handler
                        [Scenario.E1; Scenario.E2; Scenario.E3]
                        Scenario.counting) = Stopped)
    by (vm_compute; reflexivity).
  split; [exact H|].
  exact (proj1 (stops_only_on_sentinel _ _) H).
Defined.

Lemma connection_new_reaches_handler_witness :
  exists c',
    raw_event_handler [Scenario.connection_new_v2 1] Scenario.two_connections
      = {| status := Waiting; left := []; final := c' |} /\
    connections c' !! Scenario.peer = Some 1.
Proof.
  destruct (connection_new_reaches_handler Scenario.two_connections
              (Scenario.connection_new_v2 1) ".v2" 1 Scenario.connection_a
              eq_refl eq_refl eq_refl eq_refl)
    as (c' & H1 & H2 & _).
  exists c'. split; assumption.
Defined.

(** ** NApps, continued *)

Section MoreNApps.
Context {U : Type}.
Implicit Types c : Controller U.
Implicit Types table : list (string * list (Listener U)).

Lemma keeps_subscriptions_refl table : keeps_subscriptions table table.
Proof. intros p l H. exists []. now rewrite app_nil_r. Qed.

Lemma keeps_subscriptions_trans
    (t1 t2 t3 : list (string * list (Listener U))) :
  keeps_subscriptions t1 t2 -> keeps_subscriptions t2 t3 ->
  keeps_subscriptions t1 t3.
Proof.
  intros H12 H23 p l H. destruct (H12 p l H) as [m1 H1].
  destruct (H23 p _ H1) as [m2 H2]. exists (m1 ++ m2)%list.
  now rewrite app_assoc.
Qed.

Lemma register_item_keeps table item :
  keeps_subscriptions table (register_item table item).
Proof.
  destruct item as [q ls]. intros p l H. unfold register_item.
  destruct (String.eqb q p) eqn:E.
  - apply String.eqb_eq in E. subst q. rewrite get_set_eq, H. now exists ls.
  - apply String.eqb_neq in E. rewrite (get_set_ne _ _ _ _ E), H.
    exists []. now rewrite app_nil_r.
Qed.

Lemma register_listeners_keeps declared : forall table,
  keeps_subscriptions table (register_listeners declared table).
Proof.
  induction declared as [|item declared IH]; intros table.
  - apply keeps_subscriptions_refl.
  - change (register_listeners (item :: declared) table)
      with (register_listeners declared (register_item table item)).
    eapply keeps_subscriptions_trans; [apply register_item_keeps|apply IH].
Qed.

(** The controller that [load_napp] leaves, however it ends: only the
    NApps' state has changed, or the NApp is registered with its
    listeners as well. *)
Lemma load_napp_state napp_name c :
  (exists w, state_of (load_napp napp_name c) = set_world w c) \/
  (exists napp w,
     state_of (load_napp napp_name c)
     = set_world w
         (with_table
            (register_listeners (_listeners napp) (events_listeners c))
            (set_napps (<[napp_name := napp]>) c))).
Proof.
  rewrite load_napp_unfold.
  destruct (instantiate_effect napp_name c) as [w Hw].
  destruct (instantiate napp_name c) as [napp c1|e c1]; simpl in Hw; subst c1.
  - right. exists napp. unfold napp_code. simpl.
    destruct (napp_start napp w) as [[] w'|e w']; now exists w'.
  - left. now exists w.
Qed.

Lemma load_napp_keeps c napp_name :
  keeps_subscriptions (events_listeners c)
    (events_listeners (state_of (load_napp napp_name c))) /\
  (forall n, is_Some (napps c !! n) ->
             is_Some (napps (state_of (load_napp napp_name c)) !! n)) /\
  connections (state_of (load_napp napp_name c)) = connections c /\
  switches (state_of (load_napp napp_name c)) = switches c /\
  objects (state_of (load_napp napp_name c)) = objects c /\
  options (state_of (load_napp napp_name c)) = options c.
Proof.
  destruct (load_napp_state napp_name c) as [[w ->]|(napp & w & ->)]; simpl.
  - split; [apply keeps_subscriptions_refl|]. now repeat split.
  - split; [apply register_listeners_keeps|]. split; [|now repeat split].
    intros n Hn. destruct (decide (napp_name = n)) as [->|Hne].
    + rewrite lookup_insert_eq. eauto.
    + now rewrite lookup_insert_ne.
Qed.

(** Loading never unsubscribes and never unregisters: however [load_napp]
    ends, every pattern of the listener table still has the listeners it
    had, in the same order and ahead of the new ones, every NApp of the
    registry is still there, and the connections and switches are
    untouched. *)
Theorem load_napp_keeps_subscriptions c napp_name :
  keeps_subscriptions (events_listeners c)
    (events_listeners (state_of (load_napp napp_name c))) /\
  (forall n, is_Some (napps c !! n) ->
             is_Some (napps (state_of (load_napp napp_name c)) !! n)) /\
  connections (state_of (load_napp napp_name c)) = connections c /\
  switches (state_of (load_napp napp_name c)) = switches c /\
  objects (state_of (load_napp napp_name c)) = objects c /\
  options (state_of (load_napp napp_name c)) = options c.
Proof. apply load_napp_keeps. Qed.

Lemma load_napp_returned c c' napp_name :
  load_napp napp_name c = Ok tt c' ->
  exists napp,
    napps c' = <[napp_name := napp]> (napps c) /\
    (NoDup (Dict.keys (_listeners napp)) ->
     forall p,
       Dict.get p (events_listeners c') =
       match Dict.get p (_listeners napp) with
       | Some ls =>
           Some (default [] (Dict.get p (events_listeners c)) ++ ls)%list
       | None => Dict.get p (events_listeners c)
       end).
Proof.
  intros H. rewrite load_napp_unfold in H.
  destruct (instantiate_effect napp_name c) as [w Hw].
  destruct (instantiate napp_name c) as [napp c1|e c1]; [|discriminate].
  simpl in Hw. subst c1. exists napp.
  unfold napp_code in H. simpl in H.
  destruct (napp_start napp w) as [[] w'|e w']; [|discriminate].
  injection H as <-. simpl. split; [reflexivity|].
  intros Hnd p. now apply get_register_listeners.
Qed.

(** After a [load_napp] that returned, the NApp is in the registry under
    its name, every pattern that it declares has the listeners that it had
    followed by the NApp's, and every other pattern is as it was. *)
Theorem load_napp_registers c c' napp_name :
  load_napp napp_name c = Ok tt c' ->
  exists napp,
    napps c' = <[napp_name := napp]> (napps c) /\
    (NoDup (Dict.keys (_listeners napp)) ->
     forall p,
       Dict.get p (events_listeners c') =
       match Dict.get p (_listeners napp) with
       | Some ls =>
           Some (default [] (Dict.get p (events_listeners c)) ++ ls)%list
       | None => Dict.get p (events_listeners c)
       end).
Proof. apply load_napp_returned. Qed.

(** Loading a NApp twice, without unloading it in between, subscribes its
    listeners twice, so that they receive every matching event twice; the
    registry knows the second instance only. *)
Theorem load_napp_twice c c1 c2 napp_name :
  load_napp napp_name c = Ok tt c1 ->
  load_napp napp_name c1 = Ok tt c2 ->
  exists napp1 napp2,
    napps c1 !! napp_name = Some napp1 /\
    napps c2 = <[napp_name := napp2]> (napps c) /\
    (NoDup (Dict.keys (_listeners napp1)) ->
     NoDup (Dict.keys (_listeners napp2)) ->
     forall p ls1 ls2,
       Dict.get p (_listeners napp1) = Some ls1 ->
       Dict.get p (_listeners napp2) = Some ls2 ->
       Dict.get p (events_listeners c2)
       = Some (default [] (Dict.get p (events_listeners c)) ++ ls1 ++ ls2)%list).
Proof.
  intros H1 H2.
  destruct (load_napp_returned c c1 napp_name H1) as (napp1 & Hn1 & Ht1).
  destruct (load_napp_returned c1 c2 napp_name H2) as (napp2 & Hn2 & Ht2).
  exists napp1, napp2. split; [rewrite Hn1; apply lookup_insert_eq|].
  split; [rewrite Hn2, Hn1; apply insert_insert_eq|].
  intros Hnd1 Hnd2 p ls1 ls2 Hp1 Hp2.
  rewrite (Ht2 Hnd2 p), Hp2, (Ht1 Hnd1 p), Hp1. simpl.
  now rewrite app_assoc.
Qed.

End MoreNApps.

Lemma load_napp_registers_witness :
  load_napp "kytos/counter" Scenario.fresh_controller = Ok tt Scenario.counting /\
  exists napp,
    napps Scenario.counting
      = <["kytos/counter" := napp]> (napps Scenario.fresh_controller).
Proof.
  assert (H : load_napp "kytos/counter" Scenario.fresh_controller
              = Ok tt Scenario.counting) by (vm_compute; reflexivity).
  split; [exact H|].
  destruct (load_napp_registers _ _ _ H) as (napp & Hn & _).
  now exists napp.
Defined.

Lemma load_napp_twice_witness :
  let c2 := state_of (load_napp "kytos/counter" Scenario.counting) in
  load_napp "kytos/counter" Scenario.counting = Ok tt c2 /\
  exists napp1 napp2,
    napps Scenario.counting !! "kytos/counter" = Some napp1 /\
    napps c2 = <["kytos/counter" := napp2]> (napps Scenario.fresh_controller).
Proof.
  cbv zeta.
  assert (H1 : load_napp "kytos/counter" Scenario.fresh_controller
               = Ok tt Scenario.counting) by (vm_compute; reflexivity).
  assert (H2 : load_napp "kytos/counter" Scenario.counting
               = Ok tt (state_of (load_napp "kytos/counter" Scenario.counting)))
    by (vm_compute; reflexivity).
  split; [exact H2|].
  destruct (load_napp_twice _ _ _ _ H1 H2) as (napp1 & napp2 & Ha & Hb & _).
  exists napp1, napp2. split; assumption.
Defined.

(** ** Loading all NApps *)

Section LoadAll.
Context {U : Type}.
Implicit Types c : Controller U.

Lemma for_each_map {S A B} (g : A -> B) (f : B -> M S unit) l s :
  for_each (map g l) f s = for_each l (fun x => f (g x)) s.
Proof.
  revert s. induction l as [|x l IH]; intros s; simpl; [reflexivity|].
  unfold bind. destruct (f (g x) s) as [[] s1|e s1]; [apply IH|reflexivity].
Qed.

(** The two loops of [load_napps] go through the listed names in order. *)
Lemma load_napps_loops authors : forall c,
  for_each authors (fun '(author, names) =>
    for_each names (fun napp_name =>
      load_napp (U := U) (full_name author napp_name))) c
  = for_each (listed authors) load_napp c.
Proof.
  induction authors as [|[a ns] authors IH]; intros c; [reflexivity|].
  simpl listed. rewrite for_each_app, for_each_map. simpl for_each at 1.
  unfold bind.
  destruct (for_each ns _ c) as [[] c1|e c1]; [apply IH|reflexivity].
Qed.

Lemma load_napps_unfold authors c :
  load_napps (Some authors) c =
  match for_each (listed authors) load_napp c with
  | Ok _ c' => Ok tt c'
  | Raise e c' =>
      if exn_eqb FileNotFoundError e then Ok tt c' else Raise e c'
  end.
Proof.
  unfold load_napps, try_except. rewrite load_napps_loops.
  now destruct (for_each (listed authors) load_napp c) as [[] c'|e c'].
Qed.

Lemma exn_eqb_FileNotFoundError e :
  exn_eqb FileNotFoundError e = true <-> e = FileNotFoundError.
Proof. destruct e; simpl; split; congruence. Qed.

Lemma load_napp_missing napp_name c :
  napps_dir (options c) napp_name = None ->
  load_napp napp_name c = Raise FileNotFoundError c.
Proof.
  intros H. unfold load_napp, instantiate, bind, gets. now rewrite H.
Qed.

(** [load_napps] gives up without a word at the first [FileNotFoundError]:
    the NApps listed before it are loaded, those listed behind it are not
    looked at, and [load_napps] returns.  A listed NApp without [main.py]
    is such a case, and leaves the controller as the NApps before it
    left it. *)
Theorem load_napps_stops_quietly authors before n after c c1 :
  listed authors = (before ++ n :: after)%list ->
  for_each before load_napp c = Ok tt c1 ->
  (forall c2, load_napp n c1 = Raise FileNotFoundError c2 ->
              load_napps (Some authors) c = Ok tt c2) /\
  (napps_dir (options c1) n = None ->
   load_napps (Some authors) c = Ok tt c1).
Proof.
  intros Hl Hb.
  assert (H : forall c2, load_napp n c1 = Raise FileNotFoundError c2 ->
                         load_napps (Some authors) c = Ok tt c2).
  { intros c2 Hn. rewrite load_napps_unfold, Hl, for_each_app, Hb.
    simpl. unfold bind. now rewrite Hn. }
  split; [exact H|]. intros Hm. apply H. now apply load_napp_missing.
Qed.

(** [load_napps] never raises [FileNotFoundError]: without a NApps root it
    returns with the controller as it was.  Any other exception of a
    [load_napp], such as one raised by a NApp's [start], leaves
    [load_napps], with the NApps listed behind it not loaded. *)
Theorem load_napps_errors c :
  (forall listing e c', load_napps listing c = Raise e c' ->
                        e <> FileNotFoundError) /\
  load_napps None c = Ok tt c /\
  (forall authors before n after c1 e c2,
     listed authors = (before ++ n :: after)%list ->
     for_each before load_napp c = Ok tt c1 ->
     load_napp n c1 = Raise e c2 ->
     e <> FileNotFoundError ->
     load_napps (Some authors) c = Raise e c2).
Proof.
  split; [|split; [reflexivity|]].
  - intros [authors|] e c'; [|discriminate].
    rewrite load_napps_unfold.
    destruct (for_each (listed authors) load_napp c) as [[] c1|e1 c1];
      [discriminate|].
    destruct (exn_eqb FileNotFoundError e1) eqn:E; [discriminate|].
    intros [= <- <-] ->. discriminate E.
  - intros authors before n after c1 e c2 Hl Hb Hn Hne.
    rewrite load_napps_unfold, Hl, for_each_app, Hb. simpl. unfold bind.
    rewrite Hn. destruct e; try reflexivity. congruence.
Qed.

(** What a relation between the controller before and after needs to hold
    across a loop. *)
Lemma for_each_invariant {A} (R : Controller U -> Controller U -> Prop)
    (f : A -> M (Controller U) unit) :
  (forall c, R c c) ->
  (forall c1 c2 c3, R c1 c2 -> R c2 c3 -> R c1 c3) ->
  (forall x c, R c (state_of (f x c))) ->
  forall l c, R c (state_of (for_each l f c)).
Proof.
  intros Hrefl Htrans Hf l. induction l as [|x l IH]; intros c; simpl.
  - apply Hrefl.
  - unfold bind. specialize (Hf x c).
    destruct (f x c) as [[] c1|e c1]; simpl in Hf; [|exact Hf].
    eapply Htrans; [exact Hf|apply IH].
Qed.

(** Loading all NApps never unsubscribes and never unregisters, however it
    ends: every pattern still has the listeners it had, in the same order
    and ahead of the new ones, every NApp of the registry is still there,
    and the connections and switches are untouched. *)
Theorem load_napps_keeps_subscriptions listing c :
  keeps_subscriptions (events_listeners c)
    (events_listeners (state_of (load_napps listing c))) /\
  (forall n, is_Some (napps c !! n) ->
             is_Some (napps (state_of (load_napps listing c)) !! n)) /\
  connections (state_of (load_napps listing c)) = connections c /\
  switches (state_of (load_napps listing c)) = switches c /\
  objects (state_of (load_napps listing c)) = objects c.
Proof.
  destruct listing as [authors|];
    [|split; [apply keeps_subscriptions_refl|now repeat split]].
  pose (R := fun c c' : Controller U =>
    keeps_subscriptions (events_listeners c) (events_listeners c') /\
    (forall n, is_Some (napps c !! n) -> is_Some (napps c' !! n)) /\
    connections c' = connections c /\ switches c' = switches c /\
    objects c' = objects c).
  assert (H : R c (state_of (for_each (listed authors) load_napp c))).
  { apply for_each_invariant.
    - intros c0. split; [apply keeps_subscriptions_refl|now repeat split].
    - intros c1 c2 c3 (H1 & H2 & H3 & H4 & H5) (G1 & G2 & G3 & G4 & G5).
      split; [eapply keeps_subscriptions_trans; eassumption|].
      split; [intros n Hn; apply G2, H2, Hn|]. repeat split; congruence.
    - intros n c0.
      destruct (load_napp_keeps c0 n)
        as (H1 & H2 & H3 & H4 & H5 & _).
      now repeat split. }
  rewrite load_napps_unfold.
  destruct (for_each (listed authors) load_napp c) as [[] c'|e c'];
    [exact H|].
  destruct (exn_eqb FileNotFoundError e); exact H.
Qed.

(** When every listed NApp loads, [load_napps] returns and every listed
    name is in the registry. *)
Theorem load_napps_loads_all authors c c' :
  for_each (listed authors) load_napp c = Ok tt c' ->
  load_napps (Some authors) c = Ok tt c' /\
  forall n, n ∈ listed authors -> is_Some (napps c' !! n).
Proof.
  intros H. split; [now rewrite load_napps_unfold, H|].
  revert c H. generalize (listed authors) as names.
  induction names as [|m names IH]; intros c H n Hn; [inversion Hn|].
  simpl in H. unfold bind in H.
  destruct (load_napp m c) as [[] c1|e c1] eqn:Hm; [|discriminate].
  apply elem_of_cons in Hn as [->|Hn]; [|now apply (IH c1)].
  destruct (load_napp_returned c c1 m Hm) as (napp & Hreg & _).
  pose proof (for_each_invariant
    (fun a b : Controller U =>
       forall k, is_Some (napps a !! k) -> is_Some (napps b !! k))
    load_napp (fun _ _ Hk => Hk)
    (fun _ _ _ H12 H23 k Hk => H23 k (H12 k Hk))
    (fun x a => proj1 (proj2 (load_napp_keeps a x)))
    names c1) as Hkeep.
  rewrite H in Hkeep. simpl in Hkeep. apply Hkeep.
  rewrite Hreg, lookup_insert_eq. eauto.
Qed.

End LoadAll.

Lemma load_napps_stops_quietly_witness :
  load_napps Scenario.counter_then_missing Scenario.fresh_controller
    = Ok tt Scenario.counting /\
  load_napps Scenario.missing_then_counter Scenario.fresh_controller
    = Ok tt Scenario.fresh_controller.
Proof.
  split.
  - apply (proj2 (load_napps_stops_quietly
                    [("kytos", ["counter"; "missing"])] ["kytos/counter"]
                    "kytos/missing" [] Scenario.fresh_controller
                    Scenario.counting eq_refl
                    ltac:(vm_compute; reflexivity))).
    vm_compute. reflexivity.
  - apply (proj2 (load_napps_stops_quietly
                    [("kytos", ["missing"; "counter"])] []
                    "kytos/missing" ["kytos/counter"] Scenario.fresh_controller
                    Scenario.fresh_controller eq_refl eq_refl)).
    vm_compute. reflexivity.
Defined.

Lemma load_napps_errors_witness :
  exists c2,
    load_napps Scenario.failing_listing (init Scenario.failing_options tt)
      = Raise (UserError "start") c2.
Proof.
  eexists.
  apply (proj2 (proj2 (load_napps_errors (init Scenario.failing_options tt)))
           [("kytos", ["failing"; "x"])] [] "kytos/failing" ["kytos/x"]
           (init Scenario.failing_options tt) (UserError "start")).
  - reflexivity.
  - reflexivity.
  - vm_compute. reflexivity.
  - discriminate.
Defined.

Lemma load_napps_loads_all_witness :
  load_napps (Some [("kytos", ["counter"])]) Scenario.fresh_controller
    = Ok tt Scenario.counting /\
  forall n, n ∈ listed [("kytos", ["counter"])] ->
            is_Some (napps Scenario.counting !! n).
Proof.
  apply load_napps_loads_all. vm_compute. reflexivity.
Defined.

(** ** Unloading *)

Section Unloading.
Context {U : Type}.
Implicit Types c : Controller U.

Lemma table_only_ret {A} (a : A) : table_only (U := U) (ret a).
Proof. intros c. exists (events_listeners c). simpl. now rewrite with_table_id. Qed.

Lemma table_only_raise {A} e : table_only (U := U) (@raise _ A e).
Proof. intros c. exists (events_listeners c). simpl. now rewrite with_table_id. Qed.

Lemma table_only_bind {A B} (m : M (Controller U) A)
    (k : A -> M (Controller U) B) :
  table_only m -> (forall a, table_only (k a)) -> table_only (bind m k).
Proof.
  intros Hm Hk c. unfold bind. destruct (Hm c) as [t1 H1].
  destruct (m c) as [a c1|e c1]; simpl in H1; subst c1; [|now exists t1].
  destruct (Hk a (with_table t1 c)) as [t2 H2]. exists t2. now rewrite H2.
Qed.

Lemma table_only_for_each {A} (f : A -> M (Controller U) unit) l :
  (forall x, table_only (f x)) -> table_only (for_each l f).
Proof.
  intros Hf. induction l as [|x l IH]; simpl.
  - apply table_only_ret.
  - apply table_only_bind; [apply Hf|intros _; exact IH].
Qed.

Lemma table_only_getitem event_type :
  table_only (U := U) (events_listeners_getitem event_type).
Proof.
  intros c. exists (events_listeners c). unfold events_listeners_getitem.
  destruct (Dict.get event_type (events_listeners c)); simpl;
    now rewrite with_table_id.
Qed.

Lemma table_only_modify f :
  table_only (U := U) (modify (set_events_listeners f)).
Proof. intros c. now exists (f (events_listeners c)). Qed.

Lemma table_only_unload_item item : table_only (U := U) (unload_item item).
Proof.
  destruct item as [p ls]. unfold unload_item.
  apply table_only_bind.
  - apply table_only_for_each. intros x. unfold listeners_remove.
    apply table_only_bind; [apply table_only_getitem|]. intros l.
    destruct (list_remove x l);
      [apply table_only_modify|apply table_only_raise].
  - intros _. apply table_only_bind; [apply table_only_getitem|]. intros l.
    destruct (Nat.eqb (length l) 0);
      [apply table_only_modify|apply table_only_ret].
Qed.

Lemma unload_napp_absent napp_name c :
  napps c !! napp_name = None -> unload_napp napp_name c = Raise KeyError c.
Proof.
  intros E. unfold unload_napp, napps_pop, bind, getitem. now rewrite E.
Qed.

(** The controller that [unload_napp] leaves on a registered name, however
    it ends: the NApp is out of the registry, and only the NApps' state
    and the listener table may have changed besides. *)
Lemma unload_napp_state napp_name napp c :
  napps c !! napp_name = Some napp ->
  exists w table',
    state_of (unload_napp napp_name c)
    = with_table table' (set_world w (set_napps (delete napp_name) c)).
Proof.
  intros Hn. rewrite (unload_napp_unfold napp_name napp c Hn).
  unfold napp_code. simpl.
  destruct (napp_shutdown napp (world c)) as [[] w|e w]; simpl.
  - destruct (table_only_for_each unload_item (_listeners napp)
                table_only_unload_item
                (set_world w (set_napps (delete napp_name) c))) as [t Ht].
    now exists w, t.
  - exists w, (events_listeners c). reflexivity.
Qed.

Lemma unload_napp_returned c c' napp_name :
  unload_napp napp_name c = Ok tt c' ->
  is_Some (napps c !! napp_name) /\
  napps c' = delete napp_name (napps c) /\
  connections c' = connections c /\
  switches c' = switches c /\
  objects c' = objects c.
Proof.
  intros H. destruct (napps c !! napp_name) as [napp|] eqn:Hn.
  - destruct (unload_napp_state napp_name napp c Hn) as (w & t & Hs).
    rewrite H in Hs. simpl in Hs. subst c'. simpl. split; [eauto|].
    now repeat split.
  - rewrite (unload_napp_absent napp_name c Hn) in H. discriminate H.
Qed.

(** After an [unload_napp] that returned, the name was registered and is
    not any more, the other NApps are still registered, and the
    connections and switches are untouched. *)
Theorem unload_napp_unregisters c c' napp_name :
  unload_napp napp_name c = Ok tt c' ->
  is_Some (napps c !! napp_name) /\
  napps c' = delete napp_name (napps c) /\
  connections c' = connections c /\
  switches c' = switches c /\
  objects c' = objects c.
Proof. apply unload_napp_returned. Qed.

(** A NApp whose [shutdown] raises is dropped from the registry all the
    same, and its listeners stay in the listener table: [unload_napp]
    pops the NApp first and removes the listeners last. *)
Theorem unload_napp_shutdown_fails c napp_name napp e w :
  napps c !! napp_name = Some napp ->
  napp_shutdown napp (world c) = Raise e w ->
  exists c',
    unload_napp napp_name c = Raise e c' /\
    napps c' !! napp_name = None /\
    events_listeners c' = events_listeners c /\
    unload_napp napp_name c' = Raise KeyError c'.
Proof.
  intros Hn Hs. rewrite (unload_napp_unfold napp_name napp c Hn).
  unfold napp_code. simpl. rewrite Hs. eexists. split; [reflexivity|].
  simpl. split; [apply lookup_delete_eq|]. split; [reflexivity|].
  apply unload_napp_absent. simpl. apply lookup_delete_eq.
Qed.

(** What [unload_napps] has done to the registry when it returns, name by
    name. *)
Lemma unload_napps_registry names : forall c c',
  unload_napps names c = Ok tt c' ->
  forall n,
    (n ∈ names ->
     napps c' !! n = match napps c !! n with
                     | Some napp => if napp_core napp then Some napp else None
                     | None => None
                     end) /\
    (n ∉ names -> napps c' !! n = napps c !! n).
Proof.
  induction names as [|m names IH]; intros c c' H n.
  - injection H as <-. split; [intros Hn; inversion Hn|reflexivity].
  - unfold unload_napps in H. simpl in H. unfold bind at 1 in H.
    unfold bind at 1, getitem at 1 in H.
    destruct (napps c !! m) as [napp|] eqn:Hm; [|discriminate].
    destruct (napp_core napp) eqn:Hcore; simpl in H.
    + (* a core NApp is skipped *)
      destruct (IH c c' H n) as [IHin IHout]. split.
      * intros Hn. destruct (decide (n ∈ names)) as [Hin|Hnin];
          [now apply IHin|].
        apply elem_of_cons in Hn as [->|Hn]; [|contradiction].
        now rewrite (IHout Hnin), Hm, Hcore.
      * intros Hn. apply not_elem_of_cons in Hn as [_ Hn]. now apply IHout.
    + destruct (unload_napp m c) as [[] c1|e c1] eqn:Hu; [|discriminate].
      destruct (unload_napp_returned c c1 m Hu) as (_ & Hreg & _).
      destruct (IH c1 c' H n) as [IHin IHout]. rewrite Hreg in IHin, IHout.
      destruct (decide (n = m)) as [->|Hne].
      * rewrite lookup_delete_eq in IHin, IHout. rewrite Hm, Hcore.
        split; [intros _|intros Hn; apply not_elem_of_cons in Hn as [Hn _];
                         congruence].
        destruct (decide (m ∈ names)); [now apply IHin|now apply IHout].
      * rewrite lookup_delete_ne in IHin, IHout by congruence. split.
        -- intros Hn. apply elem_of_cons in Hn as [->|Hn];
             [congruence|now apply IHin].
        -- intros Hn. apply not_elem_of_cons in Hn as [_ Hn]. now apply IHout.
Qed.

(** When [unload_napps] returns, on a list of the registry's names, the
    registry holds the core NApps that it held and no other NApp. *)
Theorem unload_napps_leaves_core names c c' :
  (forall n, is_Some (napps c !! n) -> n ∈ names) ->
  unload_napps names c = Ok tt c' ->
  forall n,
    napps c' !! n = match napps c !! n with
                    | Some napp => if napp_core napp then Some napp else None
                    | None => None
                    end.
Proof.
  intros Hall H n. destruct (unload_napps_registry names c c' H n) as [Hin Hout].
  destruct (decide (n ∈ names)) as [Hn|Hn]; [now apply Hin|].
  rewrite (Hout Hn). destruct (napps c !! n) as [napp|] eqn:E; [|reflexivity].
  destruct Hn. apply Hall. rewrite E. eauto.
Qed.

(** [unload_napps] leaves core NApps alone: when every listed NApp is a
    core NApp, nothing is shut down and the controller is as it was. *)
Theorem unload_napps_skips_core names c :
  Forall (fun n => exists napp, napps c !! n = Some napp /\
                                napp_core napp = true) names ->
  unload_napps names c = Ok tt c.
Proof.
  induction 1 as [|n names (napp & Hn & Hcore) _ IH]; [reflexivity|].
  unfold unload_napps. simpl. unfold bind at 1.
  unfold bind at 1, getitem at 1. rewrite Hn, Hcore. exact IH.
Qed.

End Unloading.

Lemma unload_napp_unregisters_witness :
  unload_napp "kytos/counter" Scenario.counting = Ok tt Scenario.unloaded /\
  napps Scenario.unloaded = delete "kytos/counter" (napps Scenario.counting).
Proof.
  assert (H : unload_napp "kytos/counter" Scenario.counting
              = Ok tt Scenario.unloaded) by (vm_compute; reflexivity).
  split; [exact H|].
  exact (proj1 (proj2 (unload_napp_unregisters _ _ _ H))).
Defined.

Lemma unload_napp_shutdown_fails_witness :
  exists c',
    unload_napp "kytos/stubborn" Scenario.stubborn
      = Raise (UserError "shutdown") c' /\
    napps c' !! "kytos/stubborn" = None /\
    events_listeners c' = events_listeners Scenario.stubborn.
Proof.
  destruct (unload_napp_shutdown_fails Scenario.stubborn "kytos/stubborn"
              Scenario.stubborn_napp (UserError "shutdown") tt
              ltac:(vm_compute; reflexivity) ltac:(vm_compute; reflexivity))
    as (c' & H1 & H2 & H3 & _).
  exists c'. repeat split; assumption.
Defined.

Lemma unload_napps_leaves_core_witness :
  let names := ["kytos/of_core"; "kytos/counter"] in
  let c' := state_of (unload_napps names Scenario.with_core) in
  unload_napps names Scenario.with_core = Ok tt c' /\
  napps c' !! "kytos/counter" = None /\
  napps c' !! "kytos/of_core" = Some Scenario.core_napp.
Proof.
  cbv zeta.
  assert (H : unload_napps ["kytos/of_core"; "kytos/counter"] Scenario.with_core
              = Ok tt (state_of (unload_napps ["kytos/of_core"; "kytos/counter"]
                                   Scenario.with_core)))
    by (vm_compute; reflexivity).
  assert (Hall : forall n, is_Some (napps Scenario.with_core !! n) ->
                           n ∈ ["kytos/of_core"; "kytos/counter"]).
  { assert (E : napps Scenario.with_core
                = <["kytos/of_core" := Scenario.core_napp]>
                    (<["kytos/counter" := Scenario.counter_napp]> ∅))
      by (vm_compute; reflexivity).
    intros n Hn. rewrite E in Hn.
    destruct (decide (n = "kytos/of_core")) as [->|H1]; [now left|].
    destruct (decide (n = "kytos/counter")) as [->|H2]; [right; now left|].
    rewrite !lookup_insert_ne, lookup_empty in Hn by congruence.
    now destruct Hn. }
  split; [exact H|].
  pose proof (unload_napps_leaves_core _ _ _ Hall H) as Hcore.
  split.
  - rewrite (Hcore "kytos/counter"). vm_compute. reflexivity.
  - rewrite (Hcore "kytos/of_core"). vm_compute. reflexivity.
Defined.

Lemma unload_napps_skips_core_witness :
  let c := set_napps (<["kytos/of_core" := Scenario.core_napp]>)
             Scenario.fresh_controller in
  unload_napps ["kytos/of_core"] c = Ok tt c.
Proof.
  cbv zeta. apply unload_napps_skips_core.
  repeat constructor. exists Scenario.core_napp. split; reflexivity.
Defined.
